(** * vLLM plugin manager: a shallow embedding of the Python sources

  The development follows the package layout:
  - [Py]        the few pieces of Python's data model the code relies on
                (truthiness, [or], f-string rendering, exceptions);
  - [Config]    [config.py]: [PluginSpec], [get_install_spec], [validate],
                [get_config_path];
  - [Installer] [sources/installer.py]: [_run_pip] and the per-source
                install operations;
  - [Registry]  [core/registry.py]: the persistent plugin registry;
  - [Discovery] [core/discovery.py]: entry point snapshots;
  - [Manager]   [manager.py]: the reconciliation loop [install_plugins];
  - [Entry]     [__init__.py]: the startup hook [register].

  Everything the Python code obtains from its host (child processes, the
  package metadata index, environment variables, the file system) is an
  explicit argument or a field of the [Host] interface. *)

From Stdlib Require Import QArith.
From stdpp Require Import gmap strings list fin_maps pretty.

Set Warnings "-register-all".

Local Open Scope string_scope.
Local Open Scope list_scope.

(* ===================================================================== *)
(** * Python values and exceptions                                        *)
(* ===================================================================== *)

Module Py.

(** Exceptions raised by the modelled code, with their [str()] text. *)
Inductive exn :=
  | ConfigError (msg : string)
  | InstallerError (msg : string)
  | AttributeError (msg : string)
  | TypeError (msg : string)
  | JSONDecodeError (msg : string)
  | UnicodeDecodeError (msg : string)
  | OtherException (msg : string).

(** [str(e)] as used by [except Exception as e: error_msg = str(e)]. *)
Definition str_exn (e : exn) : string :=
  match e with
  | ConfigError m | InstallerError m | AttributeError m
  | TypeError m | JSONDecodeError m | UnicodeDecodeError m
  | OtherException m => m
  end.

(** The outcome of a call: a returned value or a raised exception. *)
Inductive result (A : Type) :=
  | Ok (a : A)
  | Raise (e : exn).
Arguments Ok {A} a.
Arguments Raise {A} e.

Definition bind {A B} (r : result A) (k : A → result B) : result B :=
  match r with
  | Ok a => k a
  | Raise e => Raise e
  end.

(** Truthiness of a [str]: only the empty string is falsy. *)
Definition str_truthy (s : string) : bool := negb (String.eqb s "").

(** Truthiness of an [Optional[str]]: [None] and [""] are falsy. *)
Definition truthy (o : option string) : bool :=
  match o with
  | Some s => str_truthy s
  | None => false
  end.

(** [a or b] for an [Optional[str]] [a] and a [str] [b]. *)
Definition or_str (a : option string) (b : string) : string :=
  match a with
  | Some s => if str_truthy s then s else b
  | None => b
  end.

(** [f"{x}"] for an [Optional[str]]: [None] is rendered as ["None"]. *)
Definition fmt (o : option string) : string :=
  match o with
  | Some s => s
  | None => "None"
  end.

(** A Python number as the installer uses it (a timeout in seconds):
    an [int], or a [float] known by its [str()] rendering and by whether
    it is zero. *)
Inductive num :=
  | PyInt (z : Z)
  | PyFloat (shown : string) (nonzero : bool).

Definition num_truthy (n : num) : bool :=
  match n with
  | PyInt z => negb (z =? 0)%Z
  | PyFloat _ nz => nz
  end.

Definition str_num (n : num) : string :=
  match n with
  | PyInt z => pretty z
  | PyFloat s _ => s
  end.

(** JSON-shaped values: what [json.load] returns and what the registry
    holds in memory. *)
Inductive jval :=
  | JNone
  | JBool (b : bool)
  | JInt (z : Z)
  | JFloat (q : Q)
  | JStr (s : string)
  | JList (l : list jval)
  | JDict (d : gmap string jval).

(** [bool(v)]: [None], [False], zero, and empty strings, lists and dicts
    are falsy. *)
Definition jtruthy (v : jval) : bool :=
  match v with
  | JNone => false
  | JBool b => b
  | JInt z => negb (z =? 0)%Z
  | JFloat q => negb (Qeq_bool q 0)
  | JStr s => str_truthy s
  | JList l => match l with [] => false | _ => true end
  | JDict d => negb (bool_decide (d = ∅))
  end.

(** [v == s] for a [str] [s]: only an equal string compares equal. *)
Definition jeq_str (v : jval) (s : string) : bool :=
  match v with
  | JStr t => String.eqb t s
  | _ => false
  end.

(** An [Optional[str]] stored into a dict. *)
Definition of_opt (o : option string) : jval :=
  match o with
  | Some s => JStr s
  | None => JNone
  end.

End Py.
Import Py.

(* ===================================================================== *)
(** * config.py                                                           *)
(* ===================================================================== *)

Module Config.

(** [@dataclass class PluginSpec]; the defaults of the dataclass are in
    [mkspec] below. *)
Record PluginSpec := {
  name : string;
  source : string;                (* "pypi", "git", or "local" *)
  enabled : bool;
  package : option string;
  version : option string;
  url : option string;
  ref : option string;
  subdirectory : option string;
  path : option string;
  editable : bool
}.

(** [PluginSpec(name=..., source=...)] with every other field at its
    default. *)
Definition mkspec (n src : string) : PluginSpec :=
  {| name := n; source := src; enabled := true;
     package := None; version := None;
     url := None; ref := None; subdirectory := None;
     path := None; editable := true |}.

(** [PluginSpec.plugin_id] *)
Definition plugin_id (self : PluginSpec) : string :=
  if String.eqb (source self) "pypi" && truthy (package self)
  then fmt (package self)
  else name self.

(** [PluginSpec.get_install_spec] *)
Definition get_install_spec (self : PluginSpec) : result string :=
  if String.eqb (source self) "pypi" then
    if truthy (version self)
    then Ok (fmt (package self) +:+ fmt (version self))
    else Ok (or_str (package self) (name self))
  else if String.eqb (source self) "git" then
    let spec := "git+" +:+ fmt (url self) in
    let spec := if truthy (ref self)
                then spec +:+ "@" +:+ fmt (ref self) else spec in
    let spec := if truthy (subdirectory self)
                then spec +:+ "#subdirectory=" +:+ fmt (subdirectory self)
                else spec in
    Ok spec
  else if String.eqb (source self) "local" then
    Ok (if truthy (path self) then fmt (path self) else "")
  else
    Raise (ConfigError ("Unknown source type: " +:+ source self)).

(** [PluginSpec.validate]; it reads the spec and returns nothing. *)
Definition validate (self : PluginSpec) : result unit :=
  if negb (str_truthy (name self)) then
    Raise (ConfigError "Plugin 'name' is required")
  else if negb (str_truthy (source self)) then
    Raise (ConfigError ("Plugin '" +:+ name self +:+ "' missing 'source' field"))
  else if String.eqb (source self) "pypi" then
    if negb (truthy (package self))
    then Raise (ConfigError ("PyPI plugin '" +:+ name self +:+ "' missing 'package' field"))
    else Ok ()
  else if String.eqb (source self) "git" then
    if negb (truthy (url self))
    then Raise (ConfigError ("Git plugin '" +:+ name self +:+ "' missing 'url' field"))
    else Ok ()
  else if String.eqb (source self) "local" then
    if negb (truthy (path self))
    then Raise (ConfigError ("Local plugin '" +:+ name self +:+ "' missing 'path' field"))
    else Ok ()
  else
    (* source not in ("pypi", "git", "local") holds on this branch *)
    Raise (ConfigError ("Plugin '" +:+ name self +:+ "' has unknown source: "
                        +:+ source self)).

(** [PluginConfig]: the list of declared plugins. *)
Record PluginConfig := { plugins : list PluginSpec }.

(** [PluginConfig.get_enabled_plugins] *)
Definition get_enabled_plugins (self : PluginConfig) : list PluginSpec :=
  filter (λ p, enabled p = true) (plugins self).

(** What [get_config_path] reads from its process: the environment
    variables, which paths exist, and the home directory.  A [Path] is
    represented by its string. *)
Record Process := {
  environ : string → option string;
  path_exists : string → bool;
  home : string
}.

Definition default_config_path (p : Process) : string :=
  home p +:+ "/.config/vllm/plugins.yaml".

(** [get_config_path] *)
Definition get_config_path (p : Process) : option string :=
  let env_path := environ p "VLLM_PLUGIN_CONFIG" in
  if truthy env_path then
    let path := fmt env_path in
    if path_exists p path then Some path
    else None
  else
    let default_path := default_config_path p in
    if path_exists p default_path then Some default_path
    else None.

(** One element the loop of [from_file] meets: a mapping, given by the
    value under each key it has, or anything else (a scalar, a sequence, a
    key of a mapping or a character of a string that is being iterated),
    given by its [str()].  The values have the types [PluginSpec]
    annotates; a key whose value is null counts as absent for the six
    optional string fields, since [.get] answers [None] for both. *)
Record plugin_data := {
  d_name : option string;
  d_source : option string;
  d_enabled : option bool;
  d_package : option string;
  d_version : option string;
  d_url : option string;
  d_ref : option string;
  d_subdirectory : option string;
  d_path : option string;
  d_editable : option bool
}.

Inductive entry :=
  | NotAMapping (shown : string)
  | Mapping (fields : plugin_data).

(** The value under the [plugins] key as the [for] statement of
    [from_file] meets it: a value that can be iterated, given by the
    elements the iteration yields (a sequence yields its items, a mapping
    its keys, a string its characters), or a value that cannot (null, a
    number, a boolean), given by the name of its type. *)
Inductive plugins_value :=
  | Iterable (elements : list entry)
  | NotIterable (type_name : string).

(** What [yaml.safe_load] returned: nothing (an empty file), a mapping,
    given by the value under its [plugins] key when it has that key, or a
    value of any other type (a sequence, a string, a number), given by the
    name of that type. *)
Inductive document :=
  | NoDocument
  | Document (plugins_data : option plugins_value)
  | NotAMappingDocument (type_name : string).

(** How [open] and [yaml.safe_load] end in [from_file]. *)
Inductive read_outcome :=
  | YAMLError (e : string)
  | FileNotFoundError
  | ReadRaises (e : exn)
  | Loaded (data : document).

(** The [PluginSpec(...)] call of [from_file], with the defaults of its
    [.get] calls. *)
Definition PluginSpec_of (plugin_data : plugin_data) : PluginSpec :=
  {| name := default "" (d_name plugin_data);
     source := default "" (d_source plugin_data);
     enabled := default true (d_enabled plugin_data);
     package := d_package plugin_data;
     version := d_version plugin_data;
     url := d_url plugin_data;
     ref := d_ref plugin_data;
     subdirectory := d_subdirectory plugin_data;
     path := d_path plugin_data;
     editable := default true (d_editable plugin_data) |}.

(** [for plugin_data in plugins_data: ...] of [from_file]; [plugins] is
    the list built so far. *)
Fixpoint load_plugins (plugins_data : list entry) (plugins : list PluginSpec)
  : result (list PluginSpec) :=
  match plugins_data with
  | [] => Ok plugins
  | NotAMapping shown :: _ =>
      Raise (ConfigError ("Invalid plugin entry: " +:+ shown))
  | Mapping plugin_data :: rest =>
      let spec := PluginSpec_of plugin_data in
      match validate spec with
      | Raise e => Raise e
      | Ok _ => load_plugins rest (plugins ++ [spec])
      end
  end.

(** [if data is None: data = {}] followed by [data.get("plugins", [])]:
    a value that is neither null nor a mapping has no [get]. *)
Definition get_plugins_data (data : document) : result plugins_value :=
  match data with
  | NoDocument => Ok (Iterable [])
  | Document None => Ok (Iterable [])
  | Document (Some plugins_data) => Ok plugins_data
  | NotAMappingDocument type_name =>
      Raise (AttributeError
               ("'" +:+ type_name +:+ "' object has no attribute 'get'"))
  end.

(** What [for plugin_data in plugins_data] iterates over. *)
Definition iter (plugins_data : plugins_value) : result (list entry) :=
  match plugins_data with
  | Iterable elements => Ok elements
  | NotIterable type_name =>
      Raise (TypeError ("'" +:+ type_name +:+ "' object is not iterable"))
  end.

(** [PluginConfig.from_file]; [r] is how reading the file at [path] ends. *)
Definition from_file (path : string) (r : read_outcome) : result PluginConfig :=
  match r with
  | YAMLError e =>
      Raise (ConfigError ("Invalid YAML in " +:+ path +:+ ": " +:+ e))
  | FileNotFoundError =>
      Raise (ConfigError ("Config file not found: " +:+ path))
  | ReadRaises e => Raise e
  | Loaded data =>
      match get_plugins_data data with
      | Raise e => Raise e
      | Ok plugins_data =>
          match iter plugins_data with
          | Raise e => Raise e
          | Ok elements =>
              match load_plugins elements [] with
              | Ok plugins => Ok {| plugins := plugins |}
              | Raise e => Raise e
              end
          end
      end
  end.

End Config.

Import Config.

(* ===================================================================== *)
(** * The host process                                                    *)
(* ===================================================================== *)

(** What [subprocess.run(cmd, capture_output=True, text=True, timeout=t)]
    does: it returns a completed process, raises [TimeoutExpired], or
    raises something else. *)
Inductive run_outcome :=
  | CompletedProcess (returncode : Z) (stdout stderr : string)
  | TimeoutExpired
  | RunRaises (e : exn).

(** What [importlib.metadata.distribution(package)] does: it returns a
    distribution (of which the code reads [metadata.get("Version")]),
    raises [PackageNotFoundError], or raises something else. *)
Inductive dist_outcome :=
  | Distribution (version : option string)
  | PackageNotFoundError
  | DistRaises (e : exn).

(** An [importlib.metadata.EntryPoint] as the code reads it; [ep_dist] is
    the name of the owning distribution when [ep.dist] is there. *)
Record EntryPoint := {
  ep_name : string;
  ep_value : string;
  ep_group : string;
  ep_dist : option string
}.

(** The collaborators outside this package.  [World] is the state of the
    host: installed distributions, the network, the clock.  Running a child
    process may change it; the queries only read it. *)
Class Host (World : Type) := {
  sys_executable : string;
  subprocess_run : World → list string → num → run_outcome * World;
  distribution : World → string → dist_outcome;
  (* [list(importlib.metadata.entry_points().select(group=g))]; an
     exception there is caught by [get_vllm_entry_points], which leaves
     the list of that group empty *)
  entry_points_select : World → string → list EntryPoint;
  invalidate_importlib_cache : World → World;
  (* [str(Path(p))] *)
  path_str : string → string
}.

(* ===================================================================== *)
(** * sources/installer.py                                                *)
(* ===================================================================== *)

Module Installer.
Section Installer.
Context {World : Type} `{Host World}.

(** The host together with the argument vectors of the child processes
    started so far, oldest first. *)
Record machine := {
  world : World;
  invocations : list (list string)
}.

Record PackageInstaller := { timeout : num }.

Definition DEFAULT_TIMEOUT : num := PyInt 300.

(** [PackageInstaller.__init__]: [self.timeout = timeout or DEFAULT_TIMEOUT] *)
Definition init (timeout : option num) : PackageInstaller :=
  {| timeout := match timeout with
                | Some t => if num_truthy t then t else DEFAULT_TIMEOUT
                | None => DEFAULT_TIMEOUT
                end |}.

(** The classification at the end of [_run_pip]. *)
Definition classify (self : PackageInstaller) (r : run_outcome) : bool * string :=
  match r with
  | CompletedProcess returncode stdout stderr =>
      let output := stdout +:+ stderr in
      let success := (returncode =? 0)%Z in
      (success, output)
  | TimeoutExpired =>
      (false, "Command timed out after " +:+ str_num (timeout self) +:+ " seconds")
  | RunRaises e =>
      (false, "Error running pip: " +:+ str_exn e)
  end.

(** [PackageInstaller._run_pip] *)
Definition _run_pip (self : PackageInstaller) (args : list string) (m : machine)
  : (bool * string) * machine :=
  let cmd := [sys_executable; "-m"; "pip"] ++ args in
  let '(r, w) := subprocess_run (world m) cmd (timeout self) in
  (classify self r, {| world := w; invocations := invocations m ++ [cmd] |}).

(** [PackageInstaller.install_pypi] *)
Definition install_pypi (self : PackageInstaller)
    (package : string) (version : option string) (upgrade : bool) (m : machine)
  : (bool * string) * machine :=
  let package_spec := if truthy version then package +:+ fmt version else package in
  let args := ["install"] in
  let args := if upgrade then args ++ ["--upgrade"] else args in
  let args := args ++ [package_spec] in
  _run_pip self args m.

(** [PackageInstaller.install_git] *)
Definition install_git (self : PackageInstaller)
    (url : string) (ref subdirectory : option string) (editable : bool) (m : machine)
  : (bool * string) * machine :=
  let git_url := "git+" +:+ url in
  let git_url := if truthy ref then git_url +:+ "@" +:+ fmt ref else git_url in
  let git_url := if truthy subdirectory
                 then git_url +:+ "#subdirectory=" +:+ fmt subdirectory
                 else git_url in
  let args := ["install"] in
  let args := if editable then args ++ ["-e"] else args in
  let args := args ++ [git_url] in
  _run_pip self args m.

(** [PackageInstaller.install_local]; [path] is the string the [Path] was
    built from. *)
Definition install_local (self : PackageInstaller)
    (path : string) (editable : bool) (m : machine)
  : (bool * string) * machine :=
  let args := ["install"] in
  let args := if editable then args ++ ["-e"] else args in
  let args := args ++ [path_str path] in
  _run_pip self args m.

(** [PackageInstaller.install_from_spec].  The defaults of the callee are
    written out where the call leaves an argument unset: [upgrade=False]
    for [install_pypi], [editable=False] for [install_git]. *)
Definition install_from_spec (self : PackageInstaller) (spec : PluginSpec) (m : machine)
  : result (bool * string) * machine :=
  if String.eqb (source spec) "pypi" then
    let '(r, m') := install_pypi self (or_str (package spec) (name spec))
                                 (version spec) false m in
    (Ok r, m')
  else if String.eqb (source spec) "git" then
    if negb (truthy (url spec)) then
      (Raise (InstallerError ("Git plugin '" +:+ name spec +:+ "' missing URL")), m)
    else
      let '(r, m') := install_git self (fmt (url spec)) (ref spec)
                                  (subdirectory spec) false m in
      (Ok r, m')
  else if String.eqb (source spec) "local" then
    if negb (truthy (path spec)) then
      (Raise (InstallerError ("Local plugin '" +:+ name spec +:+ "' missing path")), m)
    else
      let '(r, m') := install_local self (fmt (path spec)) (editable spec) m in
      (Ok r, m')
  else
    (Raise (InstallerError ("Unknown source type: " +:+ source spec)), m).

(** [PackageInstaller.uninstall] *)
Definition uninstall (self : PackageInstaller) (package : string) (m : machine)
  : (bool * string) * machine :=
  _run_pip self ["uninstall"; "-y"; package] m.

(** [PackageInstaller.is_installed]: only [PackageNotFoundError] is caught. *)
Definition is_installed (package : string) (m : machine) : result bool :=
  match distribution (world m) package with
  | Distribution _ => Ok true
  | PackageNotFoundError => Ok false
  | DistRaises e => Raise e
  end.

(** [PackageInstaller.get_installed_version] *)
Definition get_installed_version (package : string) (m : machine)
  : result (option string) :=
  match distribution (world m) package with
  | Distribution v => Ok v
  | PackageNotFoundError => Ok None
  | DistRaises e => Raise e
  end.

End Installer.
End Installer.

(* ===================================================================== *)
(** * core/registry.py                                                    *)
(* ===================================================================== *)

Module Registry.

(** [class PluginStatus(Enum)] and its [.value]. *)
Inductive PluginStatus := PENDING | INSTALLING | INSTALLED | FAILED.

#[global] Instance PluginStatus_eq_dec : EqDecision PluginStatus.
Proof. solve_decision. Defined.

Definition value (s : PluginStatus) : string :=
  match s with
  | PENDING => "pending"
  | INSTALLING => "installing"
  | INSTALLED => "installed"
  | FAILED => "failed"
  end.

Definition REGISTRY_VERSION : string := "1.0".

(** The registry file [registry.json]: missing, or there with some text. *)
Inductive file :=
  | Absent
  | Contents (text : string).

Section Persistence.
(** [json.load] and [json.dump(_, indent=2)] of the standard library. *)
Variable json_load : string → result jval.
Variable json_dump : jval → string.

(** [PluginRegistry._save]: the whole document is rewritten. *)
Definition _save (data : gmap string jval) : file :=
  Contents (json_dump (JDict data)).

(** [PluginRegistry._create_empty_registry]: the new document and the file
    it was saved to. *)
Definition _create_empty_registry : gmap string jval * file :=
  let data : gmap string jval :=
    <["version" := JStr REGISTRY_VERSION]> (<["plugins" := JDict ∅]> ∅) in
  (data, _save data).

(** [PluginRegistry._load]: the loaded document ([self._data]) and the file
    afterwards.  Only [json.JSONDecodeError] is caught. *)
Definition _load (f : file) : result (gmap string jval * file) :=
  match f with
  | Absent => Ok _create_empty_registry
  | Contents text =>
      match json_load text with
      | Ok (JDict data) =>
          if bool_decide (is_Some (data !! "plugins"))
          then Ok (data, f)
          else Ok _create_empty_registry
      | Ok _ => Ok _create_empty_registry
      | Raise (JSONDecodeError _) => Ok _create_empty_registry
      | Raise e => Raise e
      end
  end.

End Persistence.


(** [PluginRegistry.register_plugin]: the record replaces whatever was
    stored under [plugin_id]. *)
Definition register_plugin (plugins : gmap string jval)
    (plugin_id name source : string) (package version : option string)
    (status : PluginStatus) (entry_points : option (list string))
    (error : option string) : gmap string jval :=
  let plugin_data : gmap string jval :=
    <["entry_points" := JList (JStr <$> default [] entry_points)]>
    (<["status" := JStr (value status)]>
    (<["version" := of_opt version]>
    (<["package" := of_opt package]>
    (<["source" := JStr source]>
    (<["name" := JStr name]> ∅))))) in
  let plugin_data :=
    if truthy error then <["error" := of_opt error]> plugin_data
    else plugin_data in
  <[plugin_id := JDict plugin_data]> plugins.

(** [PluginRegistry.get_plugin]: [None] when the id is not a key. *)
Definition get_plugin (plugins : gmap string jval) (plugin_id : string)
  : option jval :=
  plugins !! plugin_id.


(** [PluginRegistry.update_status].  Item assignment on a stored value that
    is not a dict raises [TypeError]. *)
Definition update_status (plugins : gmap string jval)
    (plugin_id : string) (status : PluginStatus) (error : option string)
  : result (gmap string jval) :=
  match plugins !! plugin_id with
  | None => Ok plugins
  | Some (JDict d) =>
      let d := <["status" := JStr (value status)]> d in
      let d :=
        if truthy error then <["error" := of_opt error]> d
        else if bool_decide (is_Some (d !! "error"))
                && bool_decide (status = INSTALLED)
        then delete "error" d
        else d in
      Ok (<[plugin_id := JDict d]> plugins)
  | Some _ => Raise (TypeError "object does not support item assignment")
  end.

(** [PluginRegistry.update_entry_points] *)
Definition update_entry_points (plugins : gmap string jval)
    (plugin_id : string) (entry_points : list jval)
  : result (gmap string jval) :=
  match plugins !! plugin_id with
  | None => Ok plugins
  | Some (JDict d) =>
      Ok (<[plugin_id := JDict (<["entry_points" := JList entry_points]> d)]> plugins)
  | Some _ => Raise (TypeError "object does not support item assignment")
  end.

(** [PluginRegistry.remove_plugin] *)
Definition remove_plugin (plugins : gmap string jval) (plugin_id : string)
  : gmap string jval :=
  delete plugin_id plugins.

(** [PluginRegistry.is_installed].  [plugin.get] on a truthy stored value
    that is not a dict raises [AttributeError]. *)
Definition is_installed (plugins : gmap string jval) (plugin_id : string)
  : result bool :=
  match get_plugin plugins plugin_id with
  | None => Ok false
  | Some plugin =>
      if negb (jtruthy plugin) then Ok false
      else match plugin with
           | JDict d =>
               Ok (match d !! "status" with
                   | Some st => jeq_str st (value INSTALLED)
                   | None => false
                   end)
           | _ => Raise (AttributeError "object has no attribute 'get'")
           end
  end.

(** [get_registry_dir] *)
Definition get_registry_dir (p : Process) : string :=
  let env_dir := environ p "VLLM_PLUGIN_REGISTRY_DIR" in
  if truthy env_dir then fmt env_dir
  else home p +:+ "/.local/share/vllm-plugins".

(** [isinstance(v, dict)] *)
Definition is_dict (v : jval) : bool :=
  match v with
  | JDict _ => true
  | _ => false
  end.

(** [pdata.get("status") == s] for a stored dict. *)
Definition status_is (s : string) (pdata : jval) : bool :=
  match pdata with
  | JDict d =>
      match d !! "status" with
      | Some st => jeq_str st s
      | None => false
      end
  | _ => false
  end.

(** [PluginRegistry.get_plugins_by_status].  The comprehension calls
    [pdata.get] on every stored value, so a value that is not a dict raises
    [AttributeError]. *)
Definition get_plugins_by_status (plugins : gmap string jval)
    (status : PluginStatus) : result (gmap string jval) :=
  if bool_decide (map_Forall (λ _ pdata, is_dict pdata = true) plugins)
  then Ok (filter (λ kv, status_is (value status) (snd kv) = true) plugins)
  else Raise (AttributeError "object has no attribute 'get'").

End Registry.

(* ===================================================================== *)
(** * core/discovery.py                                                   *)
(* ===================================================================== *)

Module Discovery.
Section Discovery.
Context {World : Type} `{Host World}.

Definition VLLM_ENTRY_POINT_GROUPS : list string :=
  [ "vllm.general_plugins";
    "vllm.logits_processors";
    "vllm.stat_logger_plugins";
    "vllm.platform_plugins" ].

(** A dict whose keys are inserted in the order of the groups. *)
Definition by_group (A : Type) : Type := list (string * list A).

(** [d.get(group, [])] *)
Definition get_group {A} (d : by_group A) (group : string) : list A :=
  match List.find (λ kv, String.eqb (fst kv) group) d with
  | Some kv => snd kv
  | None => []
  end.

(** [EntryPointDiscovery.entry_point_to_dict]: name, value, group. *)
Definition entry_point_to_dict (ep : EntryPoint) : string * string * string :=
  (ep_name ep, ep_value ep, ep_group ep).

(** [EntryPointDiscovery.get_vllm_entry_points] *)
Definition get_vllm_entry_points (w : World) : by_group EntryPoint :=
  map (λ group, (group, entry_points_select w group)) VLLM_ENTRY_POINT_GROUPS.

(** [EntryPointDiscovery.take_snapshot]: the new value of [self._snapshot]. *)
Definition take_snapshot (w : World)
  : option (by_group (string * string * string)) :=
  Some (map (λ kv : string * list EntryPoint,
               (fst kv, map entry_point_to_dict (snd kv)))
            (get_vllm_entry_points w)).

(** [EntryPointDiscovery.get_new_entry_points] *)
Definition get_new_entry_points
    (_snapshot : option (by_group (string * string * string))) (w : World)
  : by_group EntryPoint :=
  match _snapshot with
  | None => map (λ group, (group, [])) VLLM_ENTRY_POINT_GROUPS
  | Some snapshot =>
      let current := get_vllm_entry_points w in
      map (λ group,
             let current_eps := get_group current group in
             let snapshot_eps := get_group snapshot group in
             let snapshot_set :=
               map (λ ep : string * string * string, (fst (fst ep), snd (fst ep)))
                   snapshot_eps in
             (group,
              filter (λ ep, (ep_name ep, ep_value ep) ∉ snapshot_set) current_eps))
          VLLM_ENTRY_POINT_GROUPS
  end.

(** [is_vllm_entry_point_group] *)
Definition is_vllm_entry_point_group (group : string) : bool :=
  bool_decide (group ∈ VLLM_ENTRY_POINT_GROUPS).

End Discovery.
End Discovery.

(* ===================================================================== *)
(** * manager.py                                                          *)
(* ===================================================================== *)

Module Manager.
Import Installer Registry Discovery.
Section Manager.
Context {World : Type} `{Host World}.

(** A [PluginManager]: its configuration, the plugin table of its registry
    ([self.registry._data["plugins"]]), the snapshot held by its discovery
    object, its installer, and the host it runs on. *)
Record PluginManager := {
  config : PluginConfig;
  registry : gmap string jval;
  discovery : option (by_group (string * string * string));
  installer : PackageInstaller;
  host : @machine World
}.

(** The variables of [install_plugins] that the loop updates. *)
Record pass := {
  results : gmap string (bool * string);
  installed_any : bool;
  reg : gmap string jval;
  mach : @machine World
}.

(** How the [try] block of the loop body ends: normally, with the registry
    it leaves, the result it recorded and whether it installed something; or
    by an exception, raised before the block changed the registry. *)
Inductive tried :=
  | Finished (reg : gmap string jval) (entry : bool * string) (installed : bool)
  | Excepted (e : exn).

(** The [try] block of the loop body. *)
Definition try_install (inst : PackageInstaller) (spec : PluginSpec)
    (plugin_id : string) (reg : gmap string jval) (m : @machine World)
  : tried * @machine World :=
  let '(r, m) := install_from_spec inst spec m in
  match r with
  | Raise e => (Excepted e, m)
  | Ok (true, message) =>
      match get_installed_version (or_str (package spec) (name spec)) m with
      | Raise e => (Excepted e, m)
      | Ok version =>
          let reg := register_plugin reg plugin_id (name spec) (source spec)
                       (package spec) version INSTALLED None None in
          (Finished reg (true, "Installed " +:+ or_str version "successfully") true, m)
      end
  | Ok (false, message) =>
      match update_status reg plugin_id FAILED (Some message) with
      | Raise e => (Excepted e, m)
      | Ok reg => (Finished reg (false, message) false, m)
      end
  end.

(** The body of [for spec in enabled_plugins].  An exception raised outside
    the [try] block, or by the handler itself, leaves the loop. *)
Definition install_one (inst : PackageInstaller) (st : pass) (spec : PluginSpec)
  : result pass :=
  let plugin_id := plugin_id spec in
  match is_installed (reg st) plugin_id with
  | Raise e => Raise e
  | Ok true =>
      Ok {| results := <[plugin_id := (true, "Already installed")]> (results st);
            installed_any := installed_any st;
            reg := reg st;
            mach := mach st |}
  | Ok false =>
      let reg1 := register_plugin (reg st) plugin_id (name spec) (source spec)
                    (package spec) None PENDING None None in
      match update_status reg1 plugin_id INSTALLING None with
      | Raise e => Raise e
      | Ok reg2 =>
          match try_install inst spec plugin_id reg2 (mach st) with
          | (Finished reg3 entry installed, m) =>
              Ok {| results := <[plugin_id := entry]> (results st);
                    installed_any := installed || installed_any st;
                    reg := reg3;
                    mach := m |}
          | (Excepted e, m) =>
              let error_msg := str_exn e in
              match update_status reg2 plugin_id FAILED (Some error_msg) with
              | Raise e' => Raise e'
              | Ok reg3 =>
                  Ok {| results := <[plugin_id := (false, error_msg)]> (results st);
                        installed_any := installed_any st;
                        reg := reg3;
                        mach := m |}
              end
          end
      end
  end.

(** [for spec in enabled_plugins: ...] *)
Fixpoint install_loop (inst : PackageInstaller) (specs : list PluginSpec) (st : pass)
  : result pass :=
  match specs with
  | [] => Ok st
  | spec :: rest =>
      match install_one inst st spec with
      | Ok st' => install_loop inst rest st'
      | Raise e => Raise e
      end
  end.

(** The body of the inner loop of [_update_entry_points]; whatever is
    raised inside it is caught and leaves the registry as it is.  When the
    stored [entry_points] is not a list, either the membership test or
    [append] raises, or the string is found: nothing changes. *)
Definition attribute_entry_point (reg : gmap string jval)
    (group : string) (ep : EntryPoint) : gmap string jval :=
  match ep_dist ep with
  | None => reg
  | Some pkg_name =>
      match get_plugin reg pkg_name with
      | Some (JDict d as plugin) =>
          if jtruthy plugin then
            let current_eps := default (JList []) (d !! "entry_points") in
            let ep_str := group +:+ ":" +:+ ep_name ep in
            match current_eps with
            | JList l =>
                if existsb (λ v, jeq_str v ep_str) l then reg
                else match update_entry_points reg pkg_name (l ++ [JStr ep_str]) with
                     | Ok reg' => reg'
                     | Raise _ => reg
                     end
            | _ => reg
            end
          else reg
      | _ => reg
      end
  end.

(** [PluginManager._update_entry_points] *)
Definition _update_entry_points (reg : gmap string jval)
    (snapshot : option (by_group (string * string * string))) (w : World)
  : gmap string jval :=
  let new_eps := get_new_entry_points snapshot w in
  foldl (λ reg (kv : string * list EntryPoint),
           foldl (λ reg ep, attribute_entry_point reg (fst kv) ep) reg (snd kv))
        reg new_eps.

(** [PluginManager.install_plugins]: the returned dict and the manager
    afterwards. *)
Definition install_plugins (self : PluginManager)
  : result (gmap string (bool * string) * PluginManager) :=
  let enabled_plugins := get_enabled_plugins (config self) in
  match enabled_plugins with
  | [] => Ok (∅, self)
  | _ =>
      let snapshot := take_snapshot (world (host self)) in
      match install_loop (installer self) enabled_plugins
              {| results := ∅; installed_any := false;
                 reg := registry self; mach := host self |} with
      | Raise e => Raise e
      | Ok st =>
          if installed_any st then
            let w := invalidate_importlib_cache (world (mach st)) in
            Ok (results st,
                {| config := config self;
                   registry := _update_entry_points (reg st) snapshot w;
                   discovery := snapshot;
                   installer := installer self;
                   host := {| world := w; invocations := invocations (mach st) |} |})
          else
            Ok (results st,
                {| config := config self;
                   registry := reg st;
                   discovery := snapshot;
                   installer := installer self;
                   host := mach st |})
      end
  end.

End Manager.
End Manager.

(* ===================================================================== *)
(** * __init__.py                                                         *)
(* ===================================================================== *)

Module Entry.
Section Entry.
(** [Outside] is everything [register] can reach outside the interpreter:
    the environment, the files, the installed packages.  [reconcile] is
    the rest of the [try] block once the configuration is loaded: building
    the registry, [install_plugins] and the logging of its results, with
    whatever is raised there caught by the [except Exception] of
    [register]. *)
Variable Outside : Type.
Variable process_of : Outside → Process.
Variable read_config : Outside → string → read_outcome.
Variable reconcile : PluginConfig → string → Outside → Outside.

(** The interpreter: the module-level flag, the name of the current
    process, and the outside. *)
Record interpreter := {
  _registered : bool;
  current_process_name : string;
  outside : Outside
}.

(** [is_main_process] *)
Definition is_main_process (i : interpreter) : bool :=
  String.eqb (current_process_name i) "MainProcess".

(** The [try] block of [register]; nothing raised in it leaves it. *)
Definition startup (o : Outside) : Outside :=
  match get_config_path (process_of o) with
  | None => o
  | Some config_path =>
      match from_file config_path (read_config o config_path) with
      | Raise _ => o
      | Ok config => reconcile config (Registry.get_registry_dir (process_of o)) o
      end
  end.

(** [register] *)
Definition register (i : interpreter) : interpreter :=
  if _registered i then i
  else
    let i := {| _registered := true;
                current_process_name := current_process_name i;
                outside := outside i |} in
    if negb (is_main_process i) then i
    else {| _registered := _registered i;
            current_process_name := current_process_name i;
            outside := startup (outside i) |}.

End Entry.
End Entry.

(* ===================================================================== *)
(** * Concrete inputs                                                     *)
(* ===================================================================== *)

(** A git spec with a ref and a subdirectory, as in the end-to-end example
    of the specification; [editable] is at its default. *)
Definition git_example : PluginSpec :=
  {| name := "y"; source := "git"; enabled := true;
     package := None; version := None;
     url := Some "https://x/y.git"; ref := Some "main";
     subdirectory := Some "pkg/sub"; path := None; editable := true |}.

(** A PyPI spec with a version constraint. *)
Definition pypi_example : PluginSpec :=
  {| name := "foo"; source := "pypi"; enabled := true;
     package := Some "foo"; version := Some ">=1.0.0";
     url := None; ref := None; subdirectory := None;
     path := None; editable := true |}.

(** A local spec; [editable] is at its default. *)
Definition local_example : PluginSpec :=
  {| name := "mine"; source := "local"; enabled := true;
     package := None; version := None;
     url := None; ref := None; subdirectory := None;
     path := Some "/src/mine"; editable := true |}.

(** A process whose home holds the default configuration file and whose
    VLLM_PLUGIN_CONFIG is set to [override]. *)
Definition process_with_override (override : string) : Process :=
  {| environ := λ var, if String.eqb var "VLLM_PLUGIN_CONFIG"
                       then Some override else None;
     path_exists := λ p, String.eqb p "/home/u/.config/vllm/plugins.yaml";
     home := "/home/u" |}.

(** A host that plays a script: each child process takes the next outcome
    of [runs] (and exits with 0 and no output once the script is over), the
    metadata index answers from [versions], and the entry points of
    [provided] become visible once the script is over. *)
Record script := {
  runs : list run_outcome;
  versions : list (string * string);
  provided : list EntryPoint
}.

#[global] Instance scripted : Host script := {|
  sys_executable := "python";
  subprocess_run w cmd t :=
    match runs w with
    | [] => (CompletedProcess 0 "" "", w)
    | r :: rest =>
        (r, {| runs := rest; versions := versions w; provided := provided w |})
    end;
  distribution w package :=
    match List.find (λ kv, String.eqb (fst kv) package) (versions w) with
    | Some kv => Distribution (Some (snd kv))
    | None => PackageNotFoundError
    end;
  entry_points_select w group :=
    match runs w with
    | [] => List.filter (λ ep, String.eqb (ep_group ep) group) (provided w)
    | _ => []
    end;
  invalidate_importlib_cache w := w;
  path_str p := p
|}.

(** A host with nothing scripted, nothing installed and nothing provided. *)
Definition idle : script := {| runs := []; versions := []; provided := [] |}.

(** A machine that has started no child process yet. *)
Definition fresh (w : script) : @Installer.machine script :=
  {| Installer.world := w; Installer.invocations := [] |}.

(* ===================================================================== *)
(** * Vocabulary of the specification                                     *)
(* ===================================================================== *)

(** An optional field is given when it holds a non-empty string, and
    missing otherwise: the code tests optional fields by truthiness, and
    names the empty string missing in its own error messages. *)
Definition given (o : option string) : Prop := ∃ s, o = Some s ∧ s ≠ "".
Definition missing (o : option string) : Prop := o = None ∨ o = Some "".

(** An optional segment of an install reference: the prefix and the field
    when the field is given, nothing otherwise. *)
Definition segment (prefix : string) (o : option string) : string :=
  match o with
  | Some s => if decide (s = "") then "" else prefix +:+ s
  | None => ""
  end.

(** The three origins the configuration knows. *)
Definition known_source (src : string) : Prop :=
  src = "pypi" ∨ src = "git" ∨ src = "local".

(** The field an origin requires. *)
Definition required_field (spec : PluginSpec) : option string :=
  if String.eqb (source spec) "pypi" then package spec
  else if String.eqb (source spec) "git" then url spec
  else path spec.




(** A mutating call on the registry, and a sequence of them run in order. *)
Inductive call :=
  | RegisterPlugin (plugin_id name source : string) (package version : option string)
      (status : Registry.PluginStatus) (entry_points : option (list string))
      (error : option string)
  | UpdateStatus (plugin_id : string) (status : Registry.PluginStatus)
      (error : option string).

Definition run_call (plugins : gmap string jval) (c : call)
  : result (gmap string jval) :=
  match c with
  | RegisterPlugin plugin_id name source package version status entry_points error =>
      Ok (Registry.register_plugin plugins plugin_id name source package version
            status entry_points error)
  | UpdateStatus plugin_id status error =>
      Registry.update_status plugins plugin_id status error
  end.

Fixpoint run_calls (plugins : gmap string jval) (cs : list call)
  : result (gmap string jval) :=
  match cs with
  | [] => Ok plugins
  | c :: cs =>
      match run_call plugins c with
      | Ok plugins' => run_calls plugins' cs
      | Raise e => Raise e
      end
  end.

(** A stored record has its [error] field set; a stored record has a given
    status. *)
Definition has_error (v : jval) : Prop :=
  ∃ d, v = JDict d ∧ is_Some (d !! "error").

Definition has_status (v : jval) (s : Registry.PluginStatus) : Prop :=
  ∃ d, v = JDict d ∧ d !! "status" = Some (JStr (Registry.value s)).

(** The invariant as the specification words it. *)
Definition error_iff_failed (v : jval) : Prop :=
  has_error v ↔ has_status v Registry.FAILED.

(** The part of it the registry maintains. *)
Definition error_consistent (v : jval) : Prop :=
  (∃ d, v = JDict d)
  ∧ (has_status v Registry.FAILED → has_error v)
  ∧ (has_status v Registry.INSTALLED → ¬ has_error v).

(** A call passes an error text with the status failed, and none with the
    status installed. *)
Definition disciplined (c : call) : Prop :=
  match c with
  | RegisterPlugin _ _ _ _ _ status _ error
  | UpdateStatus _ status error =>
      (status = Registry.FAILED → given error)
      ∧ (status = Registry.INSTALLED → missing error)
  end.

(** A retry through [update_status], following the state machine of the
    specification: pending, failed, installing. *)
Definition retry_calls : list call :=
  [ RegisterPlugin "foo" "foo" "pypi" (Some "foo") None Registry.PENDING None None;
    UpdateStatus "foo" Registry.FAILED (Some "network error");
    UpdateStatus "foo" Registry.INSTALLING None ].

(** A failed install followed by a successful one. *)
Definition recovery_calls : list call :=
  [ RegisterPlugin "foo" "foo" "pypi" (Some "foo") None Registry.PENDING None None;
    UpdateStatus "foo" Registry.INSTALLING None;
    UpdateStatus "foo" Registry.FAILED (Some "network error");
    UpdateStatus "foo" Registry.INSTALLING None;
    UpdateStatus "foo" Registry.INSTALLED None ].

(** An error text passed along with the status installed. *)
Definition installed_with_error_calls : list call :=
  [ RegisterPlugin "foo" "foo" "pypi" (Some "foo") None Registry.PENDING None None;
    UpdateStatus "foo" Registry.INSTALLED (Some "deprecated") ].


Definition some_dump (v : jval) : string := "{}".



(** The install attempt for [spec] on machine [m] fails with the text
    [msg]: the installer returns a failure with that message, or the
    installer, or the version query after a successful install, raises an
    exception whose text it is. *)
Definition attempt_fails {World : Type} `{Host World}
    (inst : Installer.PackageInstaller) (spec : PluginSpec)
    (m : @Installer.machine World) (msg : string) : Prop :=
  match Installer.install_from_spec inst spec m with
  | (Raise e, _) => msg = str_exn e
  | (Ok (false, message), _) => msg = message
  | (Ok (true, _), m') =>
      match Installer.get_installed_version (or_str (package spec) (name spec)) m' with
      | Raise e => msg = str_exn e
      | Ok _ => False
      end
  end.

(** Every record of the plugin table is a dict, as every record written by
    the registry is. *)
Definition dict_records (plugins : gmap string jval) : Prop :=
  ∀ pid v, plugins !! pid = Some v → ∃ d, v = JDict d.

(** The invariant of the loop of [install_plugins]: every success
    recorded so far belongs to a plugin the registry marks installed. *)
Definition successes_installed {World : Type} (st : @Manager.pass World) : Prop :=
  ∀ pid msg, Manager.results st !! pid = Some (true, msg) →
             Registry.is_installed (Manager.reg st) pid = Ok true.

(** The variables of [install_plugins] when its loop starts. *)
Definition initial_pass {World : Type} (self : @Manager.PluginManager World)
  : @Manager.pass World :=
  {| Manager.results := ∅; Manager.installed_any := false;
     Manager.reg := Manager.registry self; Manager.mach := Manager.host self |}.

(** What [install_plugins] returned, for a call that did return. *)
Definition returned {World : Type} `{Host World}
    (self : @Manager.PluginManager World)
  : gmap string (bool * string) * @Manager.PluginManager World :=
  match Manager.install_plugins self with
  | Ok r => r
  | Raise _ => (∅, self)
  end.

(** A manager over the scripted host, with an empty registry. *)
Definition manager_of (specs : list PluginSpec) (w : script)
  : @Manager.PluginManager script :=
  {| Manager.config := {| plugins := specs |};
     Manager.registry := ∅;
     Manager.discovery := None;
     Manager.installer := Installer.init None;
     Manager.host := fresh w |}.

(** Two plugins that install, on a host whose index then lists [foo] and
    shows an entry point of [foo]. *)
Definition healthy : @Manager.PluginManager script :=
  manager_of [pypi_example; git_example]
    {| runs := [CompletedProcess 0 "Successfully installed foo" ""];
       versions := [("foo", "1.2.0")];
       provided := [ {| ep_name := "foo_register"; ep_value := "foo:register";
                        ep_group := "vllm.general_plugins";
                        ep_dist := Some "foo" |} ] |}.

(** The first plugin fails with a network error, the second installs. *)
Definition flaky : @Manager.PluginManager script :=
  manager_of [pypi_example; local_example]
    {| runs := [CompletedProcess 1 "" "network error"];
       versions := []; provided := [] |}.



(** The elements the loop of [from_file] goes through, for a document on
    which it gets that far: an empty file, a mapping without a [plugins]
    key, or a mapping whose [plugins] value can be iterated. *)
Definition elements_of (data : document) : option (list entry) :=
  match data with
  | NoDocument => Some []
  | Document None => Some []
  | Document (Some (Iterable elements)) => Some elements
  | Document (Some (NotIterable _)) => None
  | NotAMappingDocument _ => None
  end.

(** What is wrong with one element, if anything: it is not a mapping, or
    the spec built from it does not validate. *)
Definition entry_error (x : entry) : option exn :=
  match x with
  | NotAMapping shown => Some (ConfigError ("Invalid plugin entry: " +:+ shown))
  | Mapping fields =>
      match validate (PluginSpec_of fields) with
      | Raise e => Some e
      | Ok _ => None
      end
  end.

(** A mapping of the configuration document that has every field of a
    valid [PluginSpec]. *)
Definition valid_fields (fields : plugin_data) : Prop :=
  validate (PluginSpec_of fields) = Ok ().

(** The fields of a PyPI plugin named only by its package, and of an entry
    that lacks its url. *)
Definition foo_fields : plugin_data :=
  {| d_name := Some "foo"; d_source := Some "pypi"; d_enabled := None;
     d_package := Some "foo"; d_version := None; d_url := None; d_ref := None;
     d_subdirectory := None; d_path := None; d_editable := None |}.

Definition broken_fields : plugin_data :=
  {| d_name := Some "y"; d_source := Some "git"; d_enabled := None;
     d_package := None; d_version := None; d_url := None; d_ref := None;
     d_subdirectory := None; d_path := None; d_editable := None |}.

(** A plugin table that holds one installed plugin. *)
Definition foo_table : gmap string jval :=
  Registry.register_plugin ∅ "foo" "foo" "pypi" (Some "foo") (Some "1.2.0")
    Registry.INSTALLED None None.

(** The (name, value) pairs of the entries a snapshot holds for a group. *)
Definition snapshot_pairs
    (snapshot : Discovery.by_group (string * string * string)) (group : string)
  : list (string * string) :=
  map (λ ep : string * string * string, (fst (fst ep), snd (fst ep)))
      (Discovery.get_group snapshot group).

(** An argument vector that runs [pip install]. *)
Definition pip_install {World : Type} `{Host World} (argv : list string) : Prop :=
  ∃ rest, argv = [sys_executable; "-m"; "pip"; "install"] ++ rest.

(** Two stored values that are the same, or two dicts of which the second
    is the first with entry point names appended to its [entry_points]
    list (the empty list when the first has none): every other key is as
    it was, and every name that was listed is still listed, in place. *)
Definition entry_points_appended (v v' : option jval) : Prop :=
  v' = v
  ∨ ∃ d d' l added,
      v = Some (JDict d) ∧ v' = Some (JDict d')
      ∧ (∀ k, k ≠ "entry_points" → d' !! k = d !! k)
      ∧ default (JList []) (d !! "entry_points") = JList l
      ∧ d' !! "entry_points" = Some (JList (l ++ (JStr <$> added))).

(** A manager whose registry holds [foo] as installed, [foo] not being in
    the configuration, on a host where installing [y] brings an entry
    point of the distribution [foo] to light. *)
Definition bystander : @Manager.PluginManager script :=
  {| Manager.config := {| plugins := [git_example] |};
     Manager.registry :=
       Registry.register_plugin ∅ "foo" "foo" "pypi" (Some "foo") (Some "1.2.0")
         Registry.INSTALLED (Some ["vllm.general_plugins:old"]) None;
     Manager.discovery := None;
     Manager.installer := Installer.init None;
     Manager.host :=
       fresh {| runs := [CompletedProcess 0 "" ""];
                versions := [];
                provided := [ {| ep_name := "foo_register";
                                 ep_value := "foo:register";
                                 ep_group := "vllm.general_plugins";
                                 ep_dist := Some "foo" |} ] |} |}.

(** A manager whose registry holds [foo] as failed with an error, on a
    host where [foo] now installs. *)
Definition recovering : @Manager.PluginManager script :=
  {| Manager.config := {| plugins := [pypi_example] |};
     Manager.registry :=
       Registry.register_plugin ∅ "foo" "foo" "pypi" (Some "foo") None
         Registry.FAILED None (Some "network error");
     Manager.discovery := None;
     Manager.installer := Installer.init None;
     Manager.host :=
       fresh {| runs := []; versions := [("foo", "1.2.0")]; provided := [] |} |}.

(** An outside that only counts the reconciliations run on it, with the
    default configuration file in place and holding one plugin. *)
Definition counting_register : Entry.interpreter nat → Entry.interpreter nat :=
  Entry.register nat
    (λ _, process_with_override "")
    (λ _ _, Loaded (Document (Some (Iterable [Mapping foo_fields]))))
    (λ _ _ n, S n).

(* ===================================================================== *)
(** * Properties of config.py                                             *)
(* ===================================================================== *)

Lemma string_app_assoc (a b c : string) : (a +:+ b) +:+ c = a +:+ (b +:+ c).
Proof.
  induction a as [|ch a IH]; [done|].
  change (String ch ((a +:+ b) +:+ c) = String ch (a +:+ b +:+ c)).
  by rewrite IH.
Qed.

Lemma string_app_nil_r (a : string) : a +:+ "" = a.
Proof.
  induction a as [|ch a IH]; [done|].
  change (String ch (a +:+ "") = String ch a). by rewrite IH.
Qed.

Lemma str_truthy_true (s : string) : str_truthy s = true ↔ s ≠ "".
Proof.
  unfold str_truthy. rewrite negb_true_iff. split.
  - intros Hf ->. by rewrite String.eqb_refl in Hf.
  - intros Hne. by apply String.eqb_neq.
Qed.

Lemma str_truthy_false (s : string) : str_truthy s = false ↔ s = "".
Proof.
  unfold str_truthy. rewrite negb_false_iff. apply String.eqb_eq.
Qed.

Lemma truthy_given (o : option string) : truthy o = true ↔ given o.
Proof.
  unfold given. destruct o as [s|]; simpl.
  - rewrite str_truthy_true. split; [eauto | by intros (s' & [= ->] & Hs)].
  - split; [done | by intros (s & ? & _)].
Qed.

Lemma truthy_missing (o : option string) : truthy o = false ↔ missing o.
Proof.
  unfold missing. destruct o as [s|]; simpl.
  - rewrite str_truthy_false. split; [intros ->; by right | by intros [?|[= ->]]].
  - split; [by left | done].
Qed.

Lemma given_not_missing (o : option string) : given o ↔ ¬ missing o.
Proof.
  rewrite <- truthy_given, <- truthy_missing. destruct (truthy o); naive_solver.
Qed.

Lemma segment_truthy (prefix : string) (o : option string) :
  (if truthy o then prefix +:+ fmt o else "") = segment prefix o.
Proof.
  destruct o as [s|]; simpl; [|done].
  case_decide as Hs.
  - by rewrite (proj2 (str_truthy_false s) Hs).
  - by rewrite (proj2 (str_truthy_true s) Hs).
Qed.

Lemma source_eqb (spec : PluginSpec) (src : string) :
  source spec = src → String.eqb (source spec) src = true.
Proof. intros ->. apply String.eqb_refl. Qed.

Lemma source_neqb (spec : PluginSpec) (src : string) :
  source spec ≠ src → String.eqb (source spec) src = false.
Proof. apply String.eqb_neq. Qed.

(** C3 (get_install_spec follows the documented construction rule).
    For a PyPI spec whose package is given, the reference is the package
    followed by the version constraint verbatim when there is one, and the
    bare package otherwise.  For a git spec with a url it is ["git+"], the
    url, then ["@ref"] exactly when ref is given, then
    ["#subdirectory=..."] exactly when subdirectory is given, in that order.
    For a local spec it is the path itself.  Any other origin raises
    ConfigError with a message that ends in the origin string. *)
Theorem get_install_spec_rule (spec : PluginSpec) :
  (∀ p, source spec = "pypi" → package spec = Some p → p ≠ "" →
        get_install_spec spec
        = Ok (match version spec with Some v => p +:+ v | None => p end))
  ∧ (∀ u, source spec = "git" → url spec = Some u →
          get_install_spec spec
          = Ok ("git+" +:+ u +:+ segment "@" (ref spec)
                +:+ segment "#subdirectory=" (subdirectory spec)))
  ∧ (∀ p, source spec = "local" → path spec = Some p →
          get_install_spec spec = Ok p)
  ∧ (¬ known_source (source spec) →
     get_install_spec spec
     = Raise (ConfigError ("Unknown source type: " +:+ source spec))).
Proof.
  unfold get_install_spec. repeat split.
  - intros p Hsrc Hp Hne. rewrite (source_eqb _ _ Hsrc), Hp. simpl.
    destruct (version spec) as [v|]; simpl.
    + destruct (str_truthy v) eqn:Hv; [done|].
      apply str_truthy_false in Hv as ->.
      by rewrite (proj2 (str_truthy_true p) Hne), string_app_nil_r.
    + by rewrite (proj2 (str_truthy_true p) Hne).
  - intros u Hsrc Hu. rewrite Hsrc. simpl. rewrite Hu. simpl. f_equal. f_equal.
    rewrite <- (segment_truthy "@" (ref spec)).
    rewrite <- (segment_truthy "#subdirectory=" (subdirectory spec)).
    destruct (truthy (ref spec)), (truthy (subdirectory spec)); simpl;
      rewrite ?string_app_assoc, ?string_app_nil_r; done.
  - intros p Hsrc Hp. rewrite Hsrc. simpl. rewrite Hp. simpl.
    destruct (str_truthy p) eqn:Hv; [done|].
    by apply str_truthy_false in Hv as ->.
  - intros Hunk. unfold known_source in Hunk.
    rewrite !source_neqb; [done | naive_solver..].
Qed.

Lemma get_install_spec_rule_witness :
  get_install_spec git_example
  = Ok "git+https://x/y.git@main#subdirectory=pkg/sub".
Proof.
  exact (proj1 (proj2 (get_install_spec_rule git_example))
               "https://x/y.git" eq_refl eq_refl).
Defined.

Example get_install_spec_pypi :
  get_install_spec
    {| name := "foo"; source := "pypi"; enabled := true;
       package := Some "foo"; version := Some ">=1.0.0";
       url := None; ref := None; subdirectory := None;
       path := None; editable := true |}
  = Ok "foo>=1.0.0".
Proof. reflexivity. Qed.

Example get_install_spec_git_no_ref :
  get_install_spec
    {| name := "y"; source := "git"; enabled := true;
       package := None; version := None;
       url := Some "https://x/y.git"; ref := None;
       subdirectory := Some "pkg/sub"; path := None; editable := true |}
  = Ok "git+https://x/y.git#subdirectory=pkg/sub".
Proof. reflexivity. Qed.

(** C9 (validate and the required field).  For a spec with a non-empty
    name and one of the three known origins, [validate] raises ConfigError
    exactly when the field required by the origin (package for pypi, url
    for git, path for local) is missing, and returns normally exactly when
    it is given.  [validate] is a function of the spec alone and returns
    nothing else, so there is no effect to observe. *)
Theorem validate_iff_required_field (spec : PluginSpec) :
  name spec ≠ "" → known_source (source spec) →
  ((∃ msg, validate spec = Raise (ConfigError msg)) ↔ missing (required_field spec))
  ∧ (validate spec = Ok () ↔ given (required_field spec)).
Proof.
  intros Hname Hsrc.
  rewrite <- truthy_missing, <- truthy_given.
  unfold validate, required_field.
  rewrite (proj2 (str_truthy_true _) Hname). simpl.
  destruct Hsrc as [Hs | [Hs | Hs]]; rewrite Hs; simpl.
  - destruct (truthy (package spec)); simpl; split; split;
      try done; try (intros [? ?]; done); eauto.
  - destruct (truthy (url spec)); simpl; split; split;
      try done; try (intros [? ?]; done); eauto.
  - destruct (truthy (path spec)); simpl; split; split;
      try done; try (intros [? ?]; done); eauto.
Qed.

Lemma validate_iff_required_field_witness :
  ((∃ msg, validate (mkspec "foo" "pypi") = Raise (ConfigError msg))
   ↔ missing (required_field (mkspec "foo" "pypi")))
  ∧ (validate git_example = Ok () ↔ given (required_field git_example)).
Proof.
  split.
  - apply (validate_iff_required_field (mkspec "foo" "pypi")); [done|].
    by left.
  - apply (validate_iff_required_field git_example); [done|].
    right; by left.
Defined.

Example validate_missing_package :
  validate (mkspec "foo" "pypi")
  = Raise (ConfigError "PyPI plugin 'foo' missing 'package' field").
Proof. reflexivity. Qed.

Example validate_git_ok : validate git_example = Ok ().
Proof. reflexivity. Qed.

(** C10, as the claim states it, fails when the override is set to the
    empty string: the variable is set, and the default location is
    consulted and returned. *)
Lemma get_config_path_empty_override_falls_back :
  environ (process_with_override "") "VLLM_PLUGIN_CONFIG" = Some ""
  ∧ path_exists (process_with_override "")
      (default_config_path (process_with_override "")) = true
  ∧ get_config_path (process_with_override "")
    = Some (default_config_path (process_with_override "")).
Proof. repeat split. Qed.

(** C10 (the override does not fall back), amended.  When
    VLLM_PLUGIN_CONFIG is set to a non-empty path, the result is that path
    if it exists and nothing otherwise, whatever is at the default
    location; in particular a path that does not exist gives nothing even
    when the default file exists.  The default location decides the result
    only when the override is unset or empty. *)
Theorem get_config_path_override (proc : Process) :
  (∀ p, environ proc "VLLM_PLUGIN_CONFIG" = Some p → p ≠ "" →
        get_config_path proc = if path_exists proc p then Some p else None)
  ∧ (∀ p, environ proc "VLLM_PLUGIN_CONFIG" = Some p → p ≠ "" →
          path_exists proc p = false → get_config_path proc = None)
  ∧ (missing (environ proc "VLLM_PLUGIN_CONFIG") →
     get_config_path proc
     = if path_exists proc (default_config_path proc)
       then Some (default_config_path proc) else None).
Proof.
  unfold get_config_path. repeat split.
  - intros p Hp Hne. rewrite Hp. simpl.
    by rewrite (proj2 (str_truthy_true p) Hne).
  - intros p Hp Hne Hex. rewrite Hp. simpl.
    by rewrite (proj2 (str_truthy_true p) Hne), Hex.
  - intros Hmiss. by rewrite (proj2 (truthy_missing _) Hmiss).
Qed.

Lemma get_config_path_override_witness :
  get_config_path (process_with_override "/mnt/plugins.yaml") = None.
Proof.
  refine (proj1 (proj2 (get_config_path_override _)) "/mnt/plugins.yaml" _ _ _);
    done.
Defined.

(* ===================================================================== *)
(** * Properties of sources/installer.py                                  *)
(* ===================================================================== *)

Section InstallerFacts.
Import Installer.
Context {World : Type} `{Host World}.

(** The text [_run_pip] returns on a timeout. *)
Lemma classify_timeout (inst : PackageInstaller) :
  classify inst TimeoutExpired
  = (false, "Command timed out after " +:+ str_num (timeout inst) +:+ " seconds").
Proof. reflexivity. Qed.

Lemma run_pip_fst (inst : PackageInstaller) (args : list string) (m : machine) r w :
  subprocess_run (world m) ([sys_executable; "-m"; "pip"] ++ args) (timeout inst)
  = (r, w) →
  _run_pip inst args m
  = (classify inst r,
     {| world := w;
        invocations := invocations m ++ [[sys_executable; "-m"; "pip"] ++ args] |}).
Proof. intros Hrun. unfold _run_pip. by rewrite Hrun. Qed.

(** Every call of [_run_pip] starts exactly one child process. *)
Lemma run_pip_invocations (inst : PackageInstaller) (args : list string) (m : machine) :
  invocations (snd (_run_pip inst args m))
  = invocations m ++ [[sys_executable; "-m"; "pip"] ++ args].
Proof.
  unfold _run_pip.
  by destruct (subprocess_run (world m) _ (timeout inst)) as [r w].
Qed.

(** The reference [install_git] builds, in the words of the rule. *)
Lemma git_reference (u : string) (ref subdirectory : option string) :
  (let git_url := "git+" +:+ u in
   let git_url := if truthy ref then git_url +:+ "@" +:+ fmt ref else git_url in
   if truthy subdirectory
   then git_url +:+ "#subdirectory=" +:+ fmt subdirectory
   else git_url)
  = "git+" +:+ u +:+ segment "@" ref +:+ segment "#subdirectory=" subdirectory.
Proof.
  simpl. rewrite <- (segment_truthy "@" ref).
  rewrite <- (segment_truthy "#subdirectory=" subdirectory).
  destruct (truthy ref), (truthy subdirectory); simpl;
    rewrite ?string_app_assoc, ?string_app_nil_r; done.
Qed.

(** C5 (classification of the outcome of a pip command), amended.  Exit
    code 0 gives success with stdout followed by stderr as message; any
    other exit code gives failure with the same combined output; a timeout
    gives failure with a message that states the timeout of the installer.
    The result of a timeout differs from the result of a failed command
    exactly when the command's combined output is not that message. *)
Theorem run_pip_classification (inst : PackageInstaller) (args : list string)
    (m : machine) :
  let cmd := [sys_executable; "-m"; "pip"] ++ args in
  let timed_out :=
    "Command timed out after " +:+ str_num (timeout inst) +:+ " seconds" in
  (∀ out err w,
     subprocess_run (world m) cmd (timeout inst) = (CompletedProcess 0 out err, w) →
     fst (_run_pip inst args m) = (true, out +:+ err))
  ∧ (∀ rc out err w, rc ≠ 0%Z →
       subprocess_run (world m) cmd (timeout inst) = (CompletedProcess rc out err, w) →
       fst (_run_pip inst args m) = (false, out +:+ err))
  ∧ (∀ w,
       subprocess_run (world m) cmd (timeout inst) = (TimeoutExpired, w) →
       fst (_run_pip inst args m) = (false, timed_out))
  ∧ (∀ rc out err, rc ≠ 0%Z →
       classify inst (CompletedProcess rc out err) = classify inst TimeoutExpired
       ↔ out +:+ err = timed_out).
Proof.
  simpl. repeat split.
  - intros out err w Hrun. by rewrite (run_pip_fst _ _ _ _ _ Hrun).
  - intros rc out err w Hrc Hrun. rewrite (run_pip_fst _ _ _ _ _ Hrun). simpl.
    by rewrite (proj2 (Z.eqb_neq rc 0) Hrc).
  - intros w Hrun. by rewrite (run_pip_fst _ _ _ _ _ Hrun).
  - simpl. intros [= _ Hout]. done.
  - simpl. intros ->. by rewrite (proj2 (Z.eqb_neq rc 0)).
Qed.

(** C6 ([install_from_spec] raises InstallerError exactly on a
    configuration error).  The call raises InstallerError exactly when the
    origin is not one of the three known ones, or it is git and url is
    missing, or it is local and path is missing; it raises nothing else,
    and a call that raises starts no child process and leaves the host as
    it was. *)
Theorem install_from_spec_raises (inst : PackageInstaller) (spec : PluginSpec)
    (m : machine) :
  ((∃ msg, fst (install_from_spec inst spec m) = Raise (InstallerError msg))
   ↔ (¬ known_source (source spec)
      ∨ (source spec = "git" ∧ missing (url spec))
      ∨ (source spec = "local" ∧ missing (path spec))))
  ∧ (∀ e, fst (install_from_spec inst spec m) = Raise e →
          (∃ msg, e = InstallerError msg)
          ∧ snd (install_from_spec inst spec m) = m).
Proof.
  rewrite <- !truthy_missing. unfold install_from_spec, known_source.
  destruct (String.eqb (source spec) "pypi") eqn:Hpypi.
  { apply String.eqb_eq in Hpypi.
    destruct (install_pypi _ _ _ _ _) as [r m']. simpl. split; [|done].
    split; [by intros [? ?] | ]. rewrite Hpypi.
    intros [Hk | [[? _] | [? _]]]; [destruct Hk; by left | done | done]. }
  apply String.eqb_neq in Hpypi.
  destruct (String.eqb (source spec) "git") eqn:Hgit.
  { apply String.eqb_eq in Hgit.
    destruct (truthy (url spec)) eqn:Hurl; simpl.
    - destruct (install_git _ _ _ _ _ _) as [r m']. simpl. split; [|done].
      split; [by intros [? ?] | ]. rewrite Hgit.
      intros [Hk | [[_ ?] | [? _]]]; [destruct Hk; right; by left | done | done].
    - split; [|intros e [= <-]; eauto]. split; [intros _|eauto].
      right; by left. }
  apply String.eqb_neq in Hgit.
  destruct (String.eqb (source spec) "local") eqn:Hlocal.
  { apply String.eqb_eq in Hlocal.
    destruct (truthy (path spec)) eqn:Hpath; simpl.
    - destruct (install_local _ _ _ _) as [r m']. simpl. split; [|done].
      split; [by intros [? ?] | ]. rewrite Hlocal.
      intros [Hk | [[? _] | [_ ?]]]; [destruct Hk; right; by right | done | done].
    - split; [|intros e [= <-]; eauto]. split; [intros _|eauto].
      right; by right. }
  apply String.eqb_neq in Hlocal. simpl.
  split; [|intros e [= <-]; eauto]. split; [intros _|eauto].
  left. by intros [? | [? | ?]].
Qed.

(** What [install_from_spec] passes to pip, origin by origin. *)
Lemma install_from_spec_invocations (inst : PackageInstaller) (spec : PluginSpec)
    (m : machine) :
  (source spec = "pypi" →
   invocations (snd (install_from_spec inst spec m))
   = invocations m
     ++ [[sys_executable; "-m"; "pip"; "install";
          if truthy (version spec)
          then or_str (package spec) (name spec) +:+ fmt (version spec)
          else or_str (package spec) (name spec)]])
  ∧ (∀ u, source spec = "git" → url spec = Some u → u ≠ "" →
     invocations (snd (install_from_spec inst spec m))
     = invocations m
       ++ [[sys_executable; "-m"; "pip"; "install";
            "git+" +:+ u +:+ segment "@" (ref spec)
            +:+ segment "#subdirectory=" (subdirectory spec)]])
  ∧ (∀ p, source spec = "local" → path spec = Some p → p ≠ "" →
     invocations (snd (install_from_spec inst spec m))
     = invocations m
       ++ [[sys_executable; "-m"; "pip"; "install"]
           ++ (if editable spec then ["-e"] else []) ++ [path_str p]]).
Proof.
  unfold install_from_spec. repeat split.
  - intros Hsrc. rewrite Hsrc. simpl.
    destruct (install_pypi _ _ _ _ _) as [r m'] eqn:Hrun. simpl.
    apply (f_equal snd) in Hrun. simpl in Hrun. subst m'.
    unfold install_pypi. rewrite run_pip_invocations.
    by destruct (truthy (version spec)).
  - intros u Hsrc Hu Hne. rewrite Hsrc, Hu. simpl.
    rewrite (proj2 (str_truthy_true u) Hne). simpl.
    destruct (install_git _ _ _ _ _ _) as [r m'] eqn:Hrun. simpl.
    apply (f_equal snd) in Hrun. simpl in Hrun. subst m'.
    unfold install_git. rewrite run_pip_invocations.
    by rewrite <- git_reference.
  - intros p Hsrc Hp Hne. rewrite Hsrc, Hp. simpl.
    rewrite (proj2 (str_truthy_true p) Hne). simpl.
    destruct (install_local _ _ _ _) as [r m'] eqn:Hrun. simpl.
    apply (f_equal snd) in Hrun. simpl in Hrun. subst m'.
    unfold install_local. rewrite run_pip_invocations.
    by destruct (editable spec).
Qed.

(** C8 (editable mode in [install_from_spec]), amended.  A local spec is
    installed with [-e] exactly when its [editable] field is true, which is
    the default.  A PyPI or git spec is installed without [-e] whatever its
    [editable] field says: the command is [install] followed by the
    reference alone. *)
Theorem install_from_spec_editable (inst : PackageInstaller) (spec : PluginSpec)
    (m : machine) :
  (source spec = "local" → given (path spec) →
   ∃ target,
     invocations (snd (install_from_spec inst spec m))
     = invocations m
       ++ [[sys_executable; "-m"; "pip"; "install"]
           ++ (if editable spec then ["-e"] else []) ++ [target]])
  ∧ (source spec = "pypi" ∨ (source spec = "git" ∧ given (url spec)) →
     ∃ target,
       invocations (snd (install_from_spec inst spec m))
       = invocations m ++ [[sys_executable; "-m"; "pip"; "install"; target]]).
Proof.
  destruct (install_from_spec_invocations inst spec m) as (Hpypi & Hgit & Hlocal).
  split.
  - intros Hsrc (p & Hp & Hne). eexists. by apply Hlocal.
  - intros [Hsrc | [Hsrc (u & Hu & Hne)]]; eexists; [by apply Hpypi | by apply Hgit].
Qed.

End InstallerFacts.

(** C5, as the claim states it, fails: a package manager that exits with a
    non-zero code after printing the sentence of the timeout gives the very
    result a timeout gives, so the two cannot be told apart. *)
Lemma timeout_not_distinguishable :
  fst (Installer._run_pip (Installer.init None) ["install"; "foo"]
         (fresh {| runs := [CompletedProcess 1 "Command timed out after 300 seconds" ""];
                   versions := []; provided := [] |}))
  = fst (Installer._run_pip (Installer.init None) ["install"; "foo"]
           (fresh {| runs := [TimeoutExpired]; versions := []; provided := [] |})).
Proof. reflexivity. Qed.

Lemma run_pip_classification_witness :
  fst (Installer._run_pip (Installer.init (Some (PyInt 60))) ["install"; "foo"]
         (fresh {| runs := [TimeoutExpired]; versions := []; provided := [] |}))
  = (false, "Command timed out after 60 seconds").
Proof.
  refine (proj1 (proj2 (proj2 (run_pip_classification _ _ _))) _ _).
  reflexivity.
Defined.

Example run_pip_success :
  fst (Installer._run_pip (Installer.init None) ["install"; "foo"]
         (fresh {| runs := [CompletedProcess 0 "Successfully installed foo" ""];
                   versions := []; provided := [] |}))
  = (true, "Successfully installed foo").
Proof. reflexivity. Qed.

Example run_pip_failure :
  fst (Installer._run_pip (Installer.init None) ["install"; "foo"]
         (fresh {| runs := [CompletedProcess 1 "" "network error"];
                   versions := []; provided := [] |}))
  = (false, "network error").
Proof. reflexivity. Qed.

Lemma install_from_spec_raises_witness :
  (∃ msg, fst (Installer.install_from_spec (Installer.init None)
                 (mkspec "y" "git") (fresh idle))
          = Raise (InstallerError msg))
  ∧ snd (Installer.install_from_spec (Installer.init None)
           (mkspec "y" "git") (fresh idle))
    = fresh idle.
Proof.
  split.
  - apply (install_from_spec_raises (Installer.init None) (mkspec "y" "git")).
    right; left. split; [done | by left].
  - eapply (install_from_spec_raises (Installer.init None) (mkspec "y" "git")).
    reflexivity.
Defined.

(** C8, as the claim states it, fails: a git spec whose [editable] field is
    true is installed without [-e]. *)
Lemma git_editable_ignored :
  editable git_example = true
  ∧ Installer.invocations
      (snd (Installer.install_from_spec (Installer.init None) git_example
              (fresh idle)))
    = [["python"; "-m"; "pip"; "install";
        "git+https://x/y.git@main#subdirectory=pkg/sub"]].
Proof. split; reflexivity. Qed.

Lemma install_from_spec_editable_witness :
  ∃ target,
    Installer.invocations
      (snd (Installer.install_from_spec (Installer.init None) local_example
              (fresh idle)))
    = [["python"; "-m"; "pip"; "install"; "-e"; target]].
Proof.
  refine (proj1 (install_from_spec_editable (Installer.init None) local_example
                   (fresh idle)) _ _).
  - reflexivity.
  - exists "/src/mine". by split.
Defined.

(* ===================================================================== *)
(** * Properties of core/registry.py                                      *)
(* ===================================================================== *)

Section RegistryFacts.
Import Registry.

Lemma value_inj (s s' : PluginStatus) : value s = value s' → s = s'.
Proof. by destruct s, s'. Qed.

(** The record [register_plugin] stores. *)
Lemma register_plugin_lookup (plugins : gmap string jval) pid name source
    package version status entry_points error :
  ∃ d, register_plugin plugins pid name source package version status
         entry_points error !! pid = Some (JDict d)
       ∧ d !! "status" = Some (JStr (value status))
       ∧ d !! "error" = (if truthy error then Some (of_opt error) else None).
Proof.
  unfold register_plugin. eexists. split; [apply lookup_insert_eq|].
  destruct (truthy error); by simplify_map_eq.
Qed.

Lemma register_plugin_other (plugins : gmap string jval) pid pid' name source
    package version status entry_points error :
  pid ≠ pid' →
  register_plugin plugins pid name source package version status
    entry_points error !! pid' = plugins !! pid'.
Proof. intros Hne. unfold register_plugin. by rewrite lookup_insert_ne. Qed.

(** What [update_status] does to a stored dict. *)
Lemma update_status_lookup (plugins : gmap string jval) pid status error d :
  plugins !! pid = Some (JDict d) →
  ∃ d', update_status plugins pid status error = Ok (<[pid := JDict d']> plugins)
        ∧ d' !! "status" = Some (JStr (value status))
        ∧ d' !! "error"
          = (if truthy error then Some (of_opt error)
             else if bool_decide (status = INSTALLED) then None
             else d !! "error").
Proof.
  intros Hd. unfold update_status. rewrite Hd. eexists. split; [done|].
  destruct (truthy error); [by simplify_map_eq|].
  rewrite lookup_insert_ne by done.
  destruct (d !! "error") as [e|] eqn:He; simpl.
  - case_bool_decide; simpl; by simplify_map_eq.
  - case_bool_decide; simpl; by simplify_map_eq.
Qed.

Lemma update_status_absent (plugins : gmap string jval) pid status error :
  plugins !! pid = None → update_status plugins pid status error = Ok plugins.
Proof. intros Hd. unfold update_status. by rewrite Hd. Qed.

(** One call keeps every stored record consistent. *)
Lemma run_call_consistent (plugins : gmap string jval) (c : call) :
  (∀ pid v, plugins !! pid = Some v → error_consistent v) →
  disciplined c →
  ∃ plugins', run_call plugins c = Ok plugins'
              ∧ ∀ pid v, plugins' !! pid = Some v → error_consistent v.
Proof.
  intros Hinv Hc.
  destruct c as [pid name source package version status eps error
                | pid status error]; simpl in *.
  - eexists. split; [done|]. intros pid' v Hv.
    destruct (decide (pid = pid')) as [<-|Hne].
    + destruct (register_plugin_lookup plugins pid name source package version
                  status eps error) as (d & Hd & Hst & Herr).
      rewrite Hd in Hv. injection Hv as <-.
      split; [eauto|]. split.
      * intros (d1 & [= <-] & Hst'). rewrite Hst in Hst'.
        injection Hst' as Hst'. apply (value_inj status FAILED) in Hst'.
        destruct Hc as [Hf _]. apply Hf, truthy_given in Hst'.
        rewrite Hst' in Herr. exists d. split; [done | by rewrite Herr].
      * intros (d1 & [= <-] & Hst') (d2 & [= <-] & Herr').
        rewrite Hst in Hst'. injection Hst' as Hst'. apply (value_inj status INSTALLED) in Hst'.
        destruct Hc as [_ Hi]. apply Hi, truthy_missing in Hst'.
        rewrite Hst' in Herr. rewrite Herr in Herr'. by destruct Herr'.
    + rewrite register_plugin_other in Hv by done. by eapply Hinv.
  - destruct (plugins !! pid) as [v0|] eqn:Hpid.
    2:{ exists plugins. split; [by apply update_status_absent | done]. }
    destruct (Hinv _ _ Hpid) as ([d ->] & _).
    destruct (update_status_lookup plugins pid status error d Hpid)
      as (d' & -> & Hst & Herr).
    eexists. split; [done|]. intros pid' v Hv.
    destruct (decide (pid = pid')) as [<-|Hne].
    + rewrite lookup_insert_eq in Hv. injection Hv as <-.
      split; [eauto|]. split.
      * intros (d1 & [= <-] & Hst'). rewrite Hst in Hst'.
        injection Hst' as Hst'. apply (value_inj status FAILED) in Hst'.
        destruct Hc as [Hf _]. apply Hf, truthy_given in Hst'.
        rewrite Hst' in Herr. exists d'. split; [done | by rewrite Herr].
      * intros (d1 & [= <-] & Hst') (d2 & [= <-] & Herr').
        rewrite Hst in Hst'. injection Hst' as Hst'. apply (value_inj status INSTALLED) in Hst'.
        destruct Hc as [_ Hi]. subst status. specialize (Hi eq_refl).
        apply truthy_missing in Hi. rewrite Hi in Herr.
        rewrite bool_decide_eq_true_2 in Herr by done.
        rewrite Herr in Herr'. by destruct Herr'.
    + rewrite lookup_insert_ne in Hv by done. by eapply Hinv.
Qed.

Lemma run_calls_consistent (cs : list call) (plugins : gmap string jval) :
  (∀ pid v, plugins !! pid = Some v → error_consistent v) →
  Forall disciplined cs →
  ∃ plugins', run_calls plugins cs = Ok plugins'
              ∧ ∀ pid v, plugins' !! pid = Some v → error_consistent v.
Proof.
  revert plugins. induction cs as [|c cs IH]; intros plugins Hinv Hcs; simpl.
  - eauto.
  - apply Forall_cons in Hcs as [Hc Hcs].
    destruct (run_call_consistent plugins c Hinv Hc) as (plugins1 & -> & Hinv1).
    by apply IH.
Qed.

(** C4, as the claim states it, fails.  A retry that moves a failed record
    to installing through [update_status] keeps the error, so the error is
    set on a record that is not failed; and an error text passed together
    with the status installed is stored on the installed record. *)
Lemma error_iff_failed_broken :
  (∃ plugins v,
     run_calls ∅ retry_calls = Ok plugins
     ∧ plugins !! "foo" = Some v
     ∧ has_error v ∧ has_status v INSTALLING ∧ ¬ error_iff_failed v)
  ∧ (∃ plugins v,
       run_calls ∅ installed_with_error_calls = Ok plugins
       ∧ plugins !! "foo" = Some v
       ∧ has_error v ∧ has_status v INSTALLED).
Proof.
  split.
  - eexists _, _. split; [reflexivity|]. split; [reflexivity|].
    assert (Herr : has_error (JDict
      (<["error" := JStr "network error"]>
        (<["status" := JStr "installing"]>
        (<["entry_points" := JList []]>
        (<["status" := JStr "pending"]>
        (<["version" := JNone]>
        (<["package" := JStr "foo"]>
        (<["source" := JStr "pypi"]>
        (<["name" := JStr "foo"]> ∅)))))))))).
    { eexists. split; [reflexivity|]. by simplify_map_eq. }
    split; [exact Herr|]. split.
    + eexists. split; [reflexivity|]. by vm_compute.
    + intros Hiff. apply Hiff in Herr as (d & [= <-] & Hst).
      by vm_compute in Hst.
  - eexists _, _. split; [reflexivity|]. split; [reflexivity|]. split.
    + eexists. split; [reflexivity|]. vm_compute. eauto.
    + eexists. split; [reflexivity|]. vm_compute. reflexivity.
Qed.

(** C4 (the error field of a registry record), amended.  Start from the
    empty registry and run any sequence of [register_plugin] and
    [update_status] calls that pass an error text with the status failed
    and none with the status installed.  Then no call raises, every stored
    record whose status is failed has its error set, and no stored record
    whose status is installed has an error.  In particular
    [update_status] to installed without an error text removes a recorded
    error.  (An error stays on a record that [update_status] moves from
    failed to pending or installing.) *)
Theorem registry_error_consistent (cs : list call) :
  Forall disciplined cs →
  (∃ plugins, run_calls ∅ cs = Ok plugins
              ∧ ∀ pid v, plugins !! pid = Some v → error_consistent v)
  ∧ (∀ (plugins : gmap string jval) pid d,
       plugins !! pid = Some (JDict d) →
       ∃ d', update_status plugins pid INSTALLED None
             = Ok (<[pid := JDict d']> plugins)
             ∧ d' !! "status" = Some (JStr "installed")
             ∧ d' !! "error" = None).
Proof.
  intros Hcs. split.
  - apply run_calls_consistent; [|done]. intros pid v Hv.
    by rewrite lookup_empty in Hv.
  - intros plugins pid d Hd.
    destruct (update_status_lookup plugins pid INSTALLED None d Hd)
      as (d' & Hup & Hst & Herr).
    exists d'. done.
Qed.

End RegistryFacts.

Lemma registry_error_consistent_witness :
  ∃ plugins, run_calls ∅ recovery_calls = Ok plugins
             ∧ ∀ pid v, plugins !! pid = Some v → error_consistent v.
Proof.
  refine (proj1 (registry_error_consistent recovery_calls _)).
  unfold recovery_calls.
  repeat (apply Forall_cons; split); try apply Forall_nil; simpl.
  all: split; try done.
  - intros _. exists "network error". by split.
  - intros _. by left.
Defined.





(** A well-formed file is kept as it is. *)
Example load_keeps_registry :
  Registry._load (λ _, Ok (JDict (<["plugins" := JDict ∅]> ∅))) some_dump
    (Registry.Contents "{}")
  = Ok (<["plugins" := JDict ∅]> ∅, Registry.Contents "{}").
Proof. reflexivity. Qed.

(* ===================================================================== *)
(** * Properties of manager.py                                            *)
(* ===================================================================== *)

Section ManagerFacts.
Import Installer Registry Discovery Manager.
Context {World : Type} `{Host World}.

(** A dict that has a key is truthy. *)
Lemma jtruthy_dict (d : gmap string jval) k v :
  d !! k = Some v → jtruthy (JDict d) = true.
Proof.
  intros Hk. simpl. rewrite bool_decide_eq_false_2; [done|].
  intros ->. by rewrite lookup_empty in Hk.
Qed.

(** [is_installed] reads the record of the plugin and nothing else. *)
Lemma is_installed_ext (reg reg' : gmap string jval) pid :
  reg !! pid = reg' !! pid → is_installed reg pid = is_installed reg' pid.
Proof. intros Heq. unfold is_installed, get_plugin. by rewrite Heq. Qed.

Lemma is_installed_status (reg : gmap string jval) pid d st :
  reg !! pid = Some (JDict d) → d !! "status" = Some (JStr st) →
  is_installed reg pid = Ok (String.eqb st "installed").
Proof.
  intros Hd Hst. unfold is_installed, get_plugin. rewrite Hd.
  rewrite (jtruthy_dict _ _ _ Hst). simpl. by rewrite Hst.
Qed.




(** The registry after a plugin was registered as pending and moved to
    installing. *)
Lemma pending_then_installing (reg : gmap string jval) pid name source package :
  ∃ d, update_status
         (register_plugin reg pid name source package None PENDING None None)
         pid INSTALLING None
       = Ok (<[pid := JDict d]> reg)
       ∧ d !! "status" = Some (JStr "installing")
       ∧ d !! "error" = None.
Proof.
  destruct (register_plugin_lookup reg pid name source package None PENDING
              None None) as (d0 & Hd0 & _ & Herr0).
  destruct (update_status_lookup _ pid INSTALLING None d0 Hd0)
    as (d & Hup & Hst & Herr).
  exists d. rewrite Hup. split; [|by rewrite Herr, Herr0].
  f_equal. unfold register_plugin. by rewrite insert_insert_eq.
Qed.

(** Marking a stored dict as failed. *)
Lemma mark_failed (reg : gmap string jval) pid d msg :
  d !! "error" = None →
  ∃ d', update_status (<[pid := JDict d]> reg) pid FAILED (Some msg)
        = Ok (<[pid := JDict d']> reg)
        ∧ d' !! "status" = Some (JStr "failed")
        ∧ d' !! "error" = (if str_truthy msg then Some (JStr msg) else None).
Proof.
  intros Hnone.
  destruct (update_status_lookup (<[pid := JDict d]> reg) pid FAILED (Some msg) d)
    as (d' & Hup & Hst & Herr); [apply lookup_insert_eq|].
  exists d'. rewrite Hup, insert_insert_eq. split; [done|]. split; [done|].
  rewrite Herr. simpl. by destruct (str_truthy msg).
Qed.

(** What one turn of the loop does for a plugin that is not installed: it
    does not raise, it touches the record and the result of that plugin
    only, and it leaves the plugin either installed with a success
    recorded, or failed with the failure recorded. *)
Lemma install_one_not_installed (inst : PackageInstaller) (st : pass)
    (spec : PluginSpec) :
  is_installed (reg st) (plugin_id spec) = Ok false →
  ∃ st' d entry,
    install_one inst st spec = Ok st'
    ∧ reg st' = <[plugin_id spec := JDict d]> (reg st)
    ∧ results st' = <[plugin_id spec := entry]> (results st)
    ∧ mach st' = snd (install_from_spec inst spec (mach st))
    ∧ ((∃ msg, entry = (true, msg)
               ∧ (∀ msg', ¬ attempt_fails inst spec (mach st) msg')
               ∧ d !! "status" = Some (JStr "installed")
               ∧ installed_any st' = true)
       ∨ (∃ msg, entry = (false, msg)
                 ∧ attempt_fails inst spec (mach st) msg
                 ∧ d !! "status" = Some (JStr "failed")
                 ∧ d !! "error" = (if str_truthy msg then Some (JStr msg) else None)
                 ∧ installed_any st' = installed_any st)).
Proof.
  intros Hnot. unfold install_one. rewrite Hnot.
  destruct (pending_then_installing (reg st) (plugin_id spec) (name spec)
              (source spec) (package spec)) as (d2 & -> & Hst2 & Herr2).
  unfold try_install, attempt_fails.
  destruct (install_from_spec inst spec (mach st)) as [[[[] message]|e] m'] eqn:Hrun;
    simpl.
  - destruct (get_installed_version _ m') as [version|e] eqn:Hver.
    + destruct (register_plugin_lookup (<[plugin_id spec := JDict d2]> (reg st))
                  (plugin_id spec) (name spec) (source spec) (package spec)
                  version INSTALLED None None) as (d3 & Hd3 & Hst3 & _).
      eexists _, d3, _. split; [done|]. simpl.
      split.
      { unfold register_plugin in *. rewrite insert_insert_eq.
        rewrite lookup_insert_eq in Hd3. injection Hd3 as <-. done. }
      split; [done|]. split; [done|]. left. eexists.
      split; [done|]. split; [by intros msg' []|]. done.
    + destruct (mark_failed (reg st) (plugin_id spec) d2 (str_exn e) Herr2)
        as (d3 & -> & Hst3 & Herr3).
      eexists _, d3, _. split; [done|]. simpl.
      repeat (split; [done|]). right. eexists. eauto.
  - destruct (mark_failed (reg st) (plugin_id spec) d2 message Herr2)
      as (d3 & -> & Hst3 & Herr3).
    eexists _, d3, _. split; [done|]. simpl.
    repeat (split; [done|]). right. eexists. eauto.
  - destruct (mark_failed (reg st) (plugin_id spec) d2 (str_exn e) Herr2)
      as (d3 & -> & Hst3 & Herr3).
    eexists _, d3, _. split; [done|]. simpl.
    repeat (split; [done|]). right. eexists. eauto.
Qed.

(** What one turn of the loop does for a plugin that is installed. *)
Lemma install_one_installed (inst : PackageInstaller) (st : pass)
    (spec : PluginSpec) :
  is_installed (reg st) (plugin_id spec) = Ok true →
  install_one inst st spec
  = Ok {| results := <[plugin_id spec := (true, "Already installed")]> (results st);
          installed_any := installed_any st;
          reg := reg st;
          mach := mach st |}.
Proof. intros Hinst. unfold install_one. by rewrite Hinst. Qed.

Lemma install_one_keeps_successes (inst : PackageInstaller) (st st' : @pass World)
    (spec : PluginSpec) :
  successes_installed st → install_one inst st spec = Ok st' →
  successes_installed st'.
Proof.
  intros Hinv Hone.
  destruct (is_installed (reg st) (plugin_id spec)) as [[]|e] eqn:Hinst.
  - rewrite (install_one_installed _ _ _ Hinst) in Hone. injection Hone as <-.
    intros pid msg. simpl.
    destruct (decide (plugin_id spec = pid)) as [<-|Hne]; [done|].
    rewrite lookup_insert_ne by done. apply Hinv.
  - destruct (install_one_not_installed inst st spec Hinst)
      as (st1 & d & entry & Hone1 & Hreg & Hres & _ & Hcase).
    rewrite Hone1 in Hone. injection Hone as <-.
    intros pid msg. rewrite Hreg, Hres.
    destruct (decide (plugin_id spec = pid)) as [<-|Hne].
    + rewrite lookup_insert_eq. intros [= ->].
      destruct Hcase as [(msg' & _ & _ & Hst & _) | (msg' & [=] & _)].
      by rewrite (is_installed_status _ _ d "installed"
                    (lookup_insert_eq _ _ _) Hst).
    + rewrite lookup_insert_ne by done. intros Hsucc.
      rewrite <- (Hinv _ _ Hsucc). apply is_installed_ext.
      by rewrite lookup_insert_ne.
  - unfold install_one in Hone. by rewrite Hinst in Hone.
Qed.

Lemma install_loop_keeps_successes (inst : PackageInstaller)
    (specs : list PluginSpec) (st st' : pass) :
  successes_installed st → install_loop inst specs st = Ok st' →
  successes_installed st'.
Proof.
  revert st. induction specs as [|spec rest IH]; intros st Hinv Hloop; simpl in *.
  - by injection Hloop as <-.
  - destruct (install_one inst st spec) as [st1|e] eqn:Hone; [|done].
    eapply IH; [|done]. by eapply install_one_keeps_successes.
Qed.

(** Attributing an entry point changes the [entry_points] of a record and
    nothing [is_installed] reads. *)
Lemma attribute_entry_point_is_installed (reg : gmap string jval)
    (group : string) (ep : EntryPoint) pid :
  is_installed (attribute_entry_point reg group ep) pid = is_installed reg pid.
Proof.
  unfold attribute_entry_point.
  destruct (ep_dist ep) as [pkg_name|]; [|done].
  unfold get_plugin. destruct (reg !! pkg_name) as [[| | | | | |d]|] eqn:Hpkg; try done.
  destruct (jtruthy (JDict d)) eqn:Htruthy; [|done].
  destruct (default (JList []) (d !! "entry_points")) as [| | | | |l|]; try done.
  destruct (existsb _ l); [done|].
  unfold update_entry_points. rewrite Hpkg.
  destruct (decide (pkg_name = pid)) as [->|Hne].
  - unfold is_installed, get_plugin. rewrite lookup_insert_eq, Hpkg, Htruthy.
    rewrite (jtruthy_dict _ "entry_points" _ (lookup_insert_eq _ _ _)). simpl.
    by rewrite lookup_insert_ne.
  - apply is_installed_ext. by rewrite lookup_insert_ne.
Qed.

Lemma update_entry_points_is_installed (reg : gmap string jval)
    (snapshot : option (by_group (string * string * string))) (w : World) pid :
  is_installed (_update_entry_points reg snapshot w) pid = is_installed reg pid.
Proof.
  unfold _update_entry_points.
  generalize (get_new_entry_points snapshot w). intros new_eps. revert reg.
  induction new_eps as [|[group eps] rest IH]; intros reg; simpl; [done|].
  rewrite IH. clear IH. revert reg.
  induction eps as [|ep eps IH]; intros reg; simpl; [done|].
  rewrite IH. apply attribute_entry_point_is_installed.
Qed.

(** A pass over plugins that are all installed starts no child process and
    records "Already installed" for each. *)
Lemma install_loop_all_installed (inst : PackageInstaller)
    (specs : list PluginSpec) (st : pass) :
  (∀ spec, spec ∈ specs → is_installed (reg st) (plugin_id spec) = Ok true) →
  ∃ st', install_loop inst specs st = Ok st'
         ∧ reg st' = reg st ∧ mach st' = mach st
         ∧ installed_any st' = installed_any st
         ∧ ∀ pid, results st' !! pid
                  = if decide (pid ∈ plugin_id <$> specs)
                    then Some (true, "Already installed")
                    else results st !! pid.
Proof.
  revert st. induction specs as [|spec rest IH]; intros st Hall;
    cbn [install_loop].
  - exists st. repeat (split; [done|]). intros pid.
    rewrite decide_False; [done|]. apply not_elem_of_nil.
  - rewrite (install_one_installed inst st spec) by (apply Hall; left).
    destruct (IH {| results := <[plugin_id spec := (true, "Already installed")]> (results st);
                    installed_any := installed_any st;
                    reg := reg st; mach := mach st |})
      as (st' & Hloop & Hreg & Hmach & Hany & Hres).
    { intros spec' Hin. simpl. apply Hall. by right. }
    exists st'. repeat (split; [done|]). intros pid.
    rewrite Hres, fmap_cons. cbn [results].
    destruct (decide (pid ∈ plugin_id <$> rest)) as [Hin|Hnin];
      destruct (decide (pid ∈ plugin_id spec :: (plugin_id <$> rest)))
        as [Hin'|Hnin']; try done.
    + destruct Hnin'. by right.
    + apply elem_of_cons in Hin' as [->|?]; [|done]. by rewrite lookup_insert_eq.
    + rewrite lookup_insert_ne; [done|]. intros <-. destruct Hnin'. by left.
Qed.

(** C1 ([install_plugins] is idempotent).  Take any manager and any host.
    If a call of [install_plugins] returns with a success recorded for
    every enabled plugin, then a second call on the manager as the first one
    left it returns as well, starts no child process (the list of
    invocations, the host and the registry are as they were), and maps the
    plugin id of every enabled spec to (True, "Already installed"). *)
Theorem install_plugins_idempotent (self self1 : PluginManager)
    (results1 : gmap string (bool * string)) :
  install_plugins self = Ok (results1, self1) →
  (∀ spec, spec ∈ get_enabled_plugins (config self) →
           ∃ msg, results1 !! plugin_id spec = Some (true, msg)) →
  ∃ results2 self2,
    install_plugins self1 = Ok (results2, self2)
    ∧ invocations (host self2) = invocations (host self1)
    ∧ host self2 = host self1
    ∧ registry self2 = registry self1
    ∧ ∀ spec, spec ∈ get_enabled_plugins (config self) →
              results2 !! plugin_id spec = Some (true, "Already installed").
Proof.
  intros Hfirst Hsucc. unfold install_plugins in Hfirst.
  destruct (get_enabled_plugins (config self)) as [|spec0 rest] eqn:Henabled.
  { injection Hfirst as <- <-. exists ∅, self.
    unfold install_plugins. rewrite Henabled. repeat (split; [done|]).
    intros spec Hin. by apply elem_of_nil in Hin. }
  set (specs := spec0 :: rest) in *.
  destruct (install_loop (installer self) specs _) as [st|e] eqn:Hloop; [|done].
  assert (Hinv : successes_installed st).
  { eapply install_loop_keeps_successes; [|exact Hloop].
    intros pid msg. simpl. by rewrite lookup_empty. }
  assert (Hcfg : config self1 = config self ∧ installer self1 = installer self
                 ∧ results1 = results st
                 ∧ ∀ pid, is_installed (registry self1) pid = is_installed (reg st) pid).
  { destruct (installed_any st); injection Hfirst as <- <-; simpl;
      repeat (split; [done|]); intros pid; [|done].
    apply update_entry_points_is_installed. }
  destruct Hcfg as (Hcfg & Hinst & -> & Hreg).
  destruct (install_loop_all_installed (installer self1) specs
              {| results := ∅; installed_any := false;
                 reg := registry self1; mach := host self1 |})
    as (st2 & Hloop2 & Hreg2 & Hmach2 & Hany2 & Hres2).
  { intros spec Hin. simpl. rewrite Hreg.
    destruct (Hsucc spec Hin) as [msg Hmsg]. by eapply Hinv. }
  unfold install_plugins. rewrite Hcfg, Henabled. fold specs.
  rewrite Hloop2. simpl in Hreg2, Hmach2, Hany2. rewrite Hany2.
  eexists _, _. split; [done|]. simpl. rewrite Hmach2, Hreg2.
  repeat (split; [done|]).
  intros spec Hin. rewrite Hres2. rewrite decide_True; [done|].
  by apply list_elem_of_fmap_2.
Qed.



(** One turn of the loop leaves the records and the results of the other
    plugins alone. *)
Lemma install_one_frame (inst : PackageInstaller) (st st' : @pass World)
    (spec : PluginSpec) pid :
  install_one inst st spec = Ok st' → pid ≠ plugin_id spec →
  results st' !! pid = results st !! pid ∧ reg st' !! pid = reg st !! pid.
Proof.
  intros Hone Hne.
  destruct (is_installed (reg st) (plugin_id spec)) as [[]|e] eqn:Hinst.
  - rewrite (install_one_installed _ _ _ Hinst) in Hone. injection Hone as <-.
    simpl. by rewrite lookup_insert_ne.
  - destruct (install_one_not_installed inst st spec Hinst)
      as (st1 & d & entry & Hone1 & Hreg & Hres & _).
    rewrite Hone1 in Hone. injection Hone as <-.
    by rewrite Hreg, Hres, !lookup_insert_ne.
  - unfold install_one in Hone. by rewrite Hinst in Hone.
Qed.

Lemma install_loop_frame (inst : PackageInstaller) (specs : list PluginSpec)
    (st st' : @pass World) pid :
  install_loop inst specs st = Ok st' → pid ∉ plugin_id <$> specs →
  results st' !! pid = results st !! pid ∧ reg st' !! pid = reg st !! pid.
Proof.
  revert st. induction specs as [|spec rest IH]; intros st Hloop Hnin;
    cbn [install_loop] in Hloop.
  - by injection Hloop as <-.
  - rewrite fmap_cons in Hnin. apply not_elem_of_cons in Hnin as [Hne Hnin].
    destruct (install_one inst st spec) as [st1|e] eqn:Hone; [|done].
    destruct (IH st1 Hloop Hnin) as [-> ->].
    by eapply install_one_frame.
Qed.






End ManagerFacts.


Lemma install_plugins_idempotent_witness :
  ∃ results2 self2,
    Manager.install_plugins (snd (returned healthy)) = Ok (results2, self2)
    ∧ Installer.invocations (Manager.host self2)
      = Installer.invocations (Manager.host (snd (returned healthy)))
    ∧ Manager.host self2 = Manager.host (snd (returned healthy))
    ∧ Manager.registry self2 = Manager.registry (snd (returned healthy))
    ∧ ∀ spec, spec ∈ get_enabled_plugins (Manager.config healthy) →
              results2 !! plugin_id spec = Some (true, "Already installed").
Proof.
  apply (install_plugins_idempotent healthy (snd (returned healthy))
           (fst (returned healthy))).
  - vm_compute. reflexivity.
  - intros spec Hin.
    change (get_enabled_plugins (Manager.config healthy))
      with [pypi_example; git_example] in Hin.
    apply elem_of_cons in Hin as [-> | Hin];
      [| apply elem_of_cons in Hin as [-> | Hin];
         [| by apply elem_of_nil in Hin]].
    + exists "Installed 1.2.0". vm_compute. reflexivity.
    + exists "Installed successfully". vm_compute. reflexivity.
Defined.

(** The first pass over [healthy] starts one child process per plugin, with
    the references of the end-to-end example of the specification. *)
Example healthy_invocations :
  Installer.invocations (Manager.host (snd (returned healthy)))
  = [ ["python"; "-m"; "pip"; "install"; "foo>=1.0.0"];
      ["python"; "-m"; "pip"; "install";
       "git+https://x/y.git@main#subdirectory=pkg/sub"] ].
Proof. vm_compute. reflexivity. Qed.

(** After that pass the record of [foo] is installed, has the version the
    index reports and the entry point that became visible. *)
Example healthy_registry :
  Manager.registry (snd (returned healthy)) !! "foo"
  = Some (JDict (<["entry_points" := JList [JStr "vllm.general_plugins:foo_register"]]>
                (<["status" := JStr "installed"]>
                (<["version" := JStr "1.2.0"]>
                (<["package" := JStr "foo"]>
                (<["source" := JStr "pypi"]>
                (<["name" := JStr "foo"]> ∅))))))).
Proof. vm_compute. reflexivity. Qed.


(** The pass over [flaky] records the failure of the first plugin and the
    success of the second. *)
Example flaky_results :
  fst (returned flaky) !! "foo" = Some (false, "network error")
  ∧ fst (returned flaky) !! "mine" = Some (true, "Installed successfully").
Proof. split; vm_compute; reflexivity. Qed.

Example flaky_invocations :
  Installer.invocations (Manager.host (snd (returned flaky)))
  = [ ["python"; "-m"; "pip"; "install"; "foo>=1.0.0"];
      ["python"; "-m"; "pip"; "install"; "-e"; "/src/mine"] ].
Proof. vm_compute. reflexivity. Qed.

(** A disabled plugin is never passed to the installer and gets no
    registry entry. *)
Example disabled_plugin_untouched :
  returned (manager_of [ {| name := "foo"; source := "pypi"; enabled := false;
                            package := Some "foo"; version := None;
                            url := None; ref := None; subdirectory := None;
                            path := None; editable := true |} ]
              idle)
  = (∅, manager_of [ {| name := "foo"; source := "pypi"; enabled := false;
                        package := Some "foo"; version := None;
                        url := None; ref := None; subdirectory := None;
                        path := None; editable := true |} ]
          idle).
Proof. reflexivity. Qed.

(* ===================================================================== *)
(** * Further properties of config.py                                     *)
(* ===================================================================== *)

Lemma string_app_nonempty (a b : string) : a ≠ "" → a +:+ b ≠ "".
Proof. by destruct a. Qed.

(** What a spec that validates looks like. *)
Lemma validate_ok_inv (spec : PluginSpec) :
  validate spec = Ok () →
  name spec ≠ "" ∧ known_source (source spec) ∧ given (required_field spec).
Proof.
  unfold validate, required_field, known_source.
  destruct (str_truthy (name spec)) eqn:Hname; simpl; [|done].
  apply str_truthy_true in Hname.
  destruct (str_truthy (source spec)) eqn:Hsource; simpl; [|done].
  destruct (String.eqb (source spec) "pypi") eqn:Hpypi.
  { apply String.eqb_eq in Hpypi.
    destruct (truthy (package spec)) eqn:Hreq; simpl; [|done].
    apply truthy_given in Hreq. auto. }
  destruct (String.eqb (source spec) "git") eqn:Hgit.
  { apply String.eqb_eq in Hgit.
    destruct (truthy (url spec)) eqn:Hreq; simpl; [|done].
    apply truthy_given in Hreq. auto. }
  destruct (String.eqb (source spec) "local") eqn:Hlocal; [|done].
  apply String.eqb_eq in Hlocal.
  destruct (truthy (path spec)) eqn:Hreq; simpl; [|done].
  apply truthy_given in Hreq. auto.
Qed.

Lemma validate_raises_config_error (spec : PluginSpec) (e : exn) :
  validate spec = Raise e → ∃ msg, e = ConfigError msg.
Proof.
  unfold validate.
  repeat (match goal with
          | |- context [if ?b then _ else _] => destruct b
          end; simpl);
    intros [= <-]; eauto.
Qed.

(** [validate] accepts a spec exactly when its name is not empty, its
    source is one of pypi, git and local, and the field that source requires
    is given; whatever it raises is a ConfigError. *)
Theorem validate_ok_iff (spec : PluginSpec) :
  (validate spec = Ok ()
   ↔ name spec ≠ "" ∧ known_source (source spec) ∧ given (required_field spec))
  ∧ (∀ e, validate spec = Raise e → ∃ msg, e = ConfigError msg).
Proof.
  split; [|apply validate_raises_config_error].
  split; [apply validate_ok_inv|].
  intros (Hname & Hsrc & Hreq). apply truthy_given in Hreq.
  unfold validate, required_field in *.
  rewrite (proj2 (str_truthy_true _) Hname). simpl.
  destruct Hsrc as [Hs | [Hs | Hs]]; rewrite Hs in *; simpl in *;
    by rewrite Hreq.
Qed.

(** The plugin id of a spec that validates is not empty; it is the package
    for a PyPI spec and the name for any other. *)
Theorem plugin_id_of_valid (spec : PluginSpec) :
  validate spec = Ok () →
  plugin_id spec ≠ ""
  ∧ (source spec = "pypi" → package spec = Some (plugin_id spec))
  ∧ (source spec ≠ "pypi" → plugin_id spec = name spec).
Proof.
  intros (Hname & Hsrc & Hreq)%validate_ok_inv.
  unfold plugin_id, required_field in *.
  destruct (String.eqb (source spec) "pypi") eqn:Hpypi.
  - apply String.eqb_eq in Hpypi.
    destruct Hreq as (p & Hp & Hne). rewrite Hp. simpl.
    rewrite (proj2 (str_truthy_true p) Hne). simpl. by rewrite Hpypi.
  - apply String.eqb_neq in Hpypi. simpl. done.
Qed.

Lemma plugin_id_of_valid_witness :
  plugin_id pypi_example ≠ ""
  ∧ (source pypi_example = "pypi" → package pypi_example = Some (plugin_id pypi_example))
  ∧ (source pypi_example ≠ "pypi" → plugin_id pypi_example = name pypi_example).
Proof. apply plugin_id_of_valid. reflexivity. Defined.

(** [get_install_spec] returns a non-empty reference for every spec that
    validates, and raises only for a source that is none of pypi, git and
    local. *)
Theorem get_install_spec_of_valid (spec : PluginSpec) :
  (validate spec = Ok () → ∃ r, get_install_spec spec = Ok r ∧ r ≠ "")
  ∧ (∀ e, get_install_spec spec = Raise e → ¬ known_source (source spec)).
Proof.
  unfold get_install_spec, known_source. split.
  - intros (Hname & Hsrc & Hreq)%validate_ok_inv. unfold required_field in Hreq.
    destruct Hsrc as [Hs | [Hs | Hs]]; rewrite Hs in *; simpl in *;
      destruct Hreq as (p & Hp & Hne); rewrite Hp; simpl.
    + destruct (truthy (version spec)); eexists; (split; [done|]).
      * by apply string_app_nonempty.
      * by rewrite (proj2 (str_truthy_true p) Hne).
    + eexists. split; [done|].
      by destruct (truthy (ref spec)), (truthy (subdirectory spec)).
    + rewrite (proj2 (str_truthy_true p) Hne). eauto.
  - intros e.
    destruct (String.eqb (source spec) "pypi") eqn:Hpypi.
    { by destruct (truthy (version spec)). }
    destruct (String.eqb (source spec) "git") eqn:Hgit; [done|].
    destruct (String.eqb (source spec) "local") eqn:Hlocal; [done|].
    apply String.eqb_neq in Hpypi, Hgit, Hlocal. intros _ [?|[?|?]]; done.
Qed.

Lemma get_install_spec_of_valid_witness :
  ∃ r, get_install_spec local_example = Ok r ∧ r ≠ "".
Proof. apply get_install_spec_of_valid. reflexivity. Defined.

(** The loop of [from_file] returns exactly when every entry is a mapping
    whose spec validates, and then with the specs appended in order. *)
Lemma load_plugins_ok (plugins_data : list entry) (acc l : list PluginSpec) :
  load_plugins plugins_data acc = Ok l
  ↔ ∃ fields, plugins_data = Mapping <$> fields
              ∧ Forall valid_fields fields
              ∧ l = acc ++ (PluginSpec_of <$> fields).
Proof.
  revert acc. induction plugins_data as [|[shown|pd] rest IH]; intros acc;
    cbn [load_plugins].
  - split.
    + intros [= <-]. exists []. by rewrite app_nil_r.
    + intros ([|pd pds] & Heq & _ & ->); [by rewrite app_nil_r | done].
  - split; [done|]. by intros ([|pd pds] & Heq & _).
  - destruct (validate (PluginSpec_of pd)) as [[]|e] eqn:Hval.
    + rewrite IH. split.
      * intros (pds & -> & Hall & ->). exists (pd :: pds).
        split; [done|]. split; [by constructor|].
        by rewrite <- app_assoc.
      * intros ([|pd' pds] & Heq & Hall & ->); [done|].
        injection Heq as <- ->. apply Forall_cons in Hall as [_ Hall].
        exists pds. split; [done|]. split; [done|].
        by rewrite <- app_assoc.
    + split; [done|].
      intros ([|pd' pds] & Heq & Hall & _); [done|].
      injection Heq as <- ->. apply Forall_cons in Hall as [Hpd _].
      unfold valid_fields in Hpd. by rewrite Hval in Hpd.
Qed.

Lemma load_plugins_raises (plugins_data : list entry) (acc : list PluginSpec) e :
  load_plugins plugins_data acc = Raise e → ∃ msg, e = ConfigError msg.
Proof.
  revert acc. induction plugins_data as [|[shown|pd] rest IH]; intros acc;
    cbn [load_plugins]; [done | intros [= <-]; eauto |].
  destruct (validate (PluginSpec_of pd)) as [[]|e'] eqn:Hval.
  - apply IH.
  - intros [= <-]. by eapply validate_raises_config_error.
Qed.

(** An element passes the loop of [from_file] exactly when it is a mapping
    whose spec validates. *)
Lemma entry_error_none (x : entry) :
  entry_error x = None ↔ ∃ fields, x = Mapping fields ∧ valid_fields fields.
Proof.
  destruct x as [shown|fields]; simpl.
  - split; [done | by intros (? & ? & _)].
  - unfold valid_fields.
    destruct (validate (PluginSpec_of fields)) as [[]|e] eqn:Hval.
    + split; [eauto|done].
    + split; [done|]. intros (fields' & [= <-] & Hok). by rewrite Hval in Hok.
Qed.

(** The loop of [from_file] raises exactly when some element is wrong, and
    then what is wrong with the first such element. *)
Lemma load_plugins_raises_iff (plugins_data : list entry) (acc : list PluginSpec) e :
  load_plugins plugins_data acc = Raise e
  ↔ ∃ good bad rest,
      plugins_data = good ++ bad :: rest
      ∧ Forall (λ x, entry_error x = None) good
      ∧ entry_error bad = Some e.
Proof.
  revert acc. induction plugins_data as [|x rest IH]; intros acc.
  - split; [done|]. by intros ([|??] & ? & ? & ? & _).
  - assert (Hfirst : ∀ e', entry_error x = Some e' →
              (Raise e' = Raise e :> result (list PluginSpec))
              ↔ ∃ good bad rest',
                  x :: rest = good ++ bad :: rest'
                  ∧ Forall (λ x, entry_error x = None) good
                  ∧ entry_error bad = Some e).
    { intros e' Hx. split.
      - intros [= <-]. by exists [], x, rest.
      - intros ([|y good] & bad & rest' & Heq & Hgood & Hbad).
        + injection Heq as <- _. rewrite Hx in Hbad. by injection Hbad as ->.
        + injection Heq as <- _. apply Forall_cons in Hgood as [Hy _].
          by rewrite Hx in Hy. }
    destruct x as [shown|pd]; cbn [load_plugins].
    + by apply Hfirst.
    + destruct (validate (PluginSpec_of pd)) as [[]|e'] eqn:Hval.
      * rewrite IH. split.
        -- intros (good & bad & rest' & -> & Hgood & Hbad).
           exists (Mapping pd :: good), bad, rest'. split; [done|].
           split; [|done]. constructor; [|done]. simpl. by rewrite Hval.
        -- intros ([|y good] & bad & rest' & Heq & Hgood & Hbad).
           ++ injection Heq as <- _. simpl in Hbad. by rewrite Hval in Hbad.
           ++ injection Heq as <- ->. apply Forall_cons in Hgood as [_ Hgood].
              by exists good, bad, rest'.
      * apply Hfirst. simpl. by rewrite Hval.
Qed.

(** [from_file] on a document whose elements the loop goes through, and on
    the documents on which it does not get that far. *)
Lemma from_file_elements (path : string) (data : document) (elements : list entry) :
  elements_of data = Some elements →
  from_file path (Loaded data)
  = match load_plugins elements [] with
    | Ok plugins => Ok {| plugins := plugins |}
    | Raise e => Raise e
    end.
Proof.
  destruct data as [|[[l|t]|]|t]; simpl; try done; by intros [= <-].
Qed.

Lemma from_file_no_elements (path : string) (data : document) :
  elements_of data = None →
  (∃ t, data = NotAMappingDocument t
        ∧ from_file path (Loaded data)
          = Raise (AttributeError ("'" +:+ t +:+ "' object has no attribute 'get'")))
  ∨ (∃ t, data = Document (Some (NotIterable t))
          ∧ from_file path (Loaded data)
            = Raise (TypeError ("'" +:+ t +:+ "' object is not iterable"))).
Proof.
  destruct data as [|[[l|t]|]|t]; simpl; try done; intros _; [right|left]; eauto.
Qed.

(** [from_file] returns a configuration exactly when the file was read, its
    top level is empty or a mapping, the value under [plugins], if there is
    one, can be iterated, every element the iteration yields is a mapping
    and the spec built from each validates; the configuration then holds
    those specs in the order of the file, one per element, and every one
    of them validates.  One bad element fails the whole load. *)
Theorem from_file_ok_iff (path : string) (r : read_outcome) (cfg : PluginConfig) :
  (from_file path r = Ok cfg
   ↔ ∃ data fields,
       r = Loaded data
       ∧ elements_of data = Some (Mapping <$> fields)
       ∧ Forall valid_fields fields
       ∧ plugins cfg = PluginSpec_of <$> fields)
  ∧ (from_file path r = Ok cfg →
     Forall (λ spec, validate spec = Ok ()) (plugins cfg)).
Proof.
  assert (Hiff : from_file path r = Ok cfg
    ↔ ∃ data fields,
        r = Loaded data
        ∧ elements_of data = Some (Mapping <$> fields)
        ∧ Forall valid_fields fields
        ∧ plugins cfg = PluginSpec_of <$> fields).
  { destruct r as [e | | e | data];
      try (split; [done | by intros (? & ? & ? & _)]).
    destruct (elements_of data) as [elements|] eqn:Hel.
    - rewrite (from_file_elements path data elements Hel).
      destruct (load_plugins elements []) as [l|e] eqn:Hload.
      + apply load_plugins_ok in Hload as (fields & Hdata & Hall & ->).
        split.
        * intros [= <-]. exists data, fields. by rewrite Hel, Hdata.
        * intros (data' & fields' & [= <-] & Hdata' & _ & Hcfg).
          rewrite Hel, Hdata in Hdata'. injection Hdata' as Hdata'.
          assert (Hinj : Inj (=) (=) Mapping) by (by intros ?? [=]).
          apply (inj (fmap Mapping)) in Hdata' as <-.
          destruct cfg as [l]. simpl in *. by subst.
      + split; [done|].
        intros (data' & fields & [= <-] & Hdata & Hall & _).
        rewrite Hel in Hdata. injection Hdata as ->.
        assert (Hok : load_plugins (Mapping <$> fields) []
                      = Ok ([] ++ (PluginSpec_of <$> fields))).
        { apply load_plugins_ok. by exists fields. }
        by rewrite Hload in Hok.
    - split.
      + destruct (from_file_no_elements path data Hel)
          as [(t & _ & ->) | (t & _ & ->)]; done.
      + intros (data' & fields & [= <-] & Hdata & _).
        by rewrite Hel in Hdata. }
  split; [exact Hiff|].
  intros (data & fields & _ & _ & Hall & ->)%Hiff.
  by apply Forall_fmap.
Qed.

Lemma from_file_ok_iff_witness :
  Forall (λ spec, validate spec = Ok ())
    (plugins {| plugins := [PluginSpec_of foo_fields] |}).
Proof.
  apply (proj2 (from_file_ok_iff "plugins.yaml"
                  (Loaded (Document (Some (Iterable [Mapping foo_fields])))) _)).
  reflexivity.
Defined.

(** The errors of [from_file].  A YAML error and a missing file become a
    ConfigError that names the path; any other exception of reading the
    file is passed on.  Once the file is read: a top level that is neither
    empty nor a mapping raises AttributeError, for it has no [get]; a
    [plugins] value that cannot be iterated (null, a number, a boolean)
    raises TypeError; otherwise the load raises exactly when some element
    is wrong, with the ConfigError of the first such element.  Nothing
    else is raised.  An empty file and a document without a [plugins] key
    give the empty configuration. *)
Theorem from_file_errors (path : string) :
  (∀ e, from_file path (YAMLError e)
        = Raise (ConfigError ("Invalid YAML in " +:+ path +:+ ": " +:+ e)))
  ∧ from_file path FileNotFoundError
    = Raise (ConfigError ("Config file not found: " +:+ path))
  ∧ (∀ e, from_file path (ReadRaises e) = Raise e)
  ∧ (∀ t, from_file path (Loaded (NotAMappingDocument t))
          = Raise (AttributeError ("'" +:+ t +:+ "' object has no attribute 'get'")))
  ∧ (∀ t, from_file path (Loaded (Document (Some (NotIterable t))))
          = Raise (TypeError ("'" +:+ t +:+ "' object is not iterable")))
  ∧ (∀ data elements e,
       elements_of data = Some elements →
       (from_file path (Loaded data) = Raise e
        ↔ ∃ good bad rest,
            elements = good ++ bad :: rest
            ∧ Forall (λ x, entry_error x = None) good
            ∧ entry_error bad = Some e)
       ∧ (from_file path (Loaded data) = Raise e → ∃ msg, e = ConfigError msg))
  ∧ (∀ r e, from_file path r = Raise e →
            r = ReadRaises e
            ∨ (∃ msg, e = ConfigError msg)
            ∨ (∃ t, r = Loaded (NotAMappingDocument t)
                    ∧ e = AttributeError
                            ("'" +:+ t +:+ "' object has no attribute 'get'"))
            ∨ (∃ t, r = Loaded (Document (Some (NotIterable t)))
                    ∧ e = TypeError ("'" +:+ t +:+ "' object is not iterable")))
  ∧ from_file path (Loaded NoDocument) = Ok {| plugins := [] |}
  ∧ from_file path (Loaded (Document None)) = Ok {| plugins := [] |}.
Proof.
  assert (Hloop : ∀ data elements e,
            elements_of data = Some elements →
            from_file path (Loaded data) = Raise e
            ↔ load_plugins elements [] = Raise e).
  { intros data elements e Hel. rewrite (from_file_elements path data elements Hel).
    destruct (load_plugins elements []) as [l|e']; [done|].
    split; by intros [= <-]. }
  split; [done|]. split; [done|]. split; [done|]. split; [done|].
  split; [done|]. split; [|split; [|done]].
  - intros data elements e Hel. split.
    + rewrite (Hloop _ _ _ Hel). apply load_plugins_raises_iff.
    + rewrite (Hloop _ _ _ Hel). apply load_plugins_raises.
  - intros r e. destruct r as [e' | | e' | data].
    + intros [= <-]. right. left. eauto.
    + intros [= <-]. right. left. eauto.
    + intros [= <-]. by left.
    + destruct (elements_of data) as [elements|] eqn:Hel.
      * rewrite (Hloop _ _ _ Hel). intros Hraise. right. left.
        by eapply load_plugins_raises.
      * destruct (from_file_no_elements path data Hel)
          as [(t & -> & ->) | (t & -> & ->)]; intros [= <-]; right; right;
          [left | right]; eauto.
Qed.

(** The defaults of an entry that names only its package, and the failure
    of a document whose second entry lacks its url. *)
Example from_file_defaults :
  from_file "plugins.yaml" (Loaded (Document (Some (Iterable [Mapping foo_fields]))))
  = Ok {| plugins :=
            [ {| name := "foo"; source := "pypi"; enabled := true;
                 package := Some "foo"; version := None; url := None;
                 ref := None; subdirectory := None; path := None;
                 editable := true |} ] |}.
Proof. reflexivity. Qed.

(** A file that reads [plugins:] holds null under the key, and a file
    that is a YAML sequence has no [get]: neither is a ConfigError. *)
Example from_file_null_plugins :
  from_file "plugins.yaml" (Loaded (Document (Some (NotIterable "NoneType"))))
  = Raise (TypeError "'NoneType' object is not iterable").
Proof. reflexivity. Qed.

Example from_file_top_level_list :
  from_file "plugins.yaml" (Loaded (NotAMappingDocument "list"))
  = Raise (AttributeError "'list' object has no attribute 'get'").
Proof. reflexivity. Qed.

Example from_file_one_bad_entry :
  from_file "plugins.yaml"
    (Loaded (Document (Some (Iterable [Mapping foo_fields;
                                       Mapping broken_fields]))))
  = Raise (ConfigError "Git plugin 'y' missing 'url' field").
Proof. reflexivity. Qed.

Lemma validate_ok_iff_witness :
  validate git_example = Ok ().
Proof.
  apply (proj1 (validate_ok_iff git_example)).
  split; [done|]. split; [right; by left|].
  exists "https://x/y.git". by split.
Defined.

Lemma from_file_errors_witness :
  from_file "plugins.yaml"
    (Loaded (Document (Some (Iterable [Mapping foo_fields;
                                       Mapping broken_fields]))))
  = Raise (ConfigError "Git plugin 'y' missing 'url' field").
Proof.
  apply (proj2 (proj1 (proj1 (proj2 (proj2 (proj2 (proj2 (proj2
                 (from_file_errors "plugins.yaml"))))))
           (Document (Some (Iterable [Mapping foo_fields; Mapping broken_fields])))
           [Mapping foo_fields; Mapping broken_fields]
           (ConfigError "Git plugin 'y' missing 'url' field") eq_refl))).
  exists [Mapping foo_fields], (Mapping broken_fields), [].
  split; [reflexivity|]. split; [|reflexivity].
  constructor; [reflexivity | constructor].
Defined.

(* ===================================================================== *)
(** * Further properties of sources/installer.py                          *)
(* ===================================================================== *)

Section InstallerMore.
Import Installer.
Context {World : Type} `{Host World}.

(** The timeout of an installer is never zero: [None] and a zero timeout
    both give the default of 300 seconds, any other timeout is kept. *)
Theorem init_timeout (t : option num) :
  num_truthy (timeout (init t)) = true
  ∧ (∀ n, t = Some n → num_truthy n = true → timeout (init t) = n)
  ∧ (∀ n, t = Some n → num_truthy n = false → timeout (init t) = PyInt 300)
  ∧ (t = None → timeout (init t) = PyInt 300).
Proof.
  unfold init. repeat split.
  - destruct t as [n|]; simpl; [|done]. by destruct (num_truthy n) eqn:Hn.
  - intros n -> Hn. simpl. by rewrite Hn.
  - intros n -> Hn. simpl. by rewrite Hn.
  - by intros ->.
Qed.

Lemma version_suffix (package : string) (version : option string) :
  (if truthy version then package +:+ fmt version else package)
  = package +:+ default "" version.
Proof.
  destruct version as [v|]; simpl; [|by rewrite string_app_nil_r].
  destruct (str_truthy v) eqn:Hv; [done|].
  apply str_truthy_false in Hv as ->. by rewrite string_app_nil_r.
Qed.

(** Each mutating operation of the installer starts exactly one child
    process, and it is [sys.executable -m pip] with these arguments:
    [install], [--upgrade] when asked, and the package followed by the
    version constraint; [install], [-e] when asked, and the git reference;
    [install], [-e] when asked, and the path; [uninstall -y] and the
    package. *)
Theorem installer_commands (inst : PackageInstaller) (m : machine) :
  (∀ package version upgrade,
     invocations (snd (install_pypi inst package version upgrade m))
     = invocations m
       ++ [[sys_executable; "-m"; "pip"; "install"]
           ++ (if upgrade then ["--upgrade"] else [])
           ++ [package +:+ default "" version]])
  ∧ (∀ url ref subdirectory editable,
       invocations (snd (install_git inst url ref subdirectory editable m))
       = invocations m
         ++ [[sys_executable; "-m"; "pip"; "install"]
             ++ (if editable then ["-e"] else [])
             ++ ["git+" +:+ url +:+ segment "@" ref
                 +:+ segment "#subdirectory=" subdirectory]])
  ∧ (∀ path editable,
       invocations (snd (install_local inst path editable m))
       = invocations m
         ++ [[sys_executable; "-m"; "pip"; "install"]
             ++ (if editable then ["-e"] else []) ++ [path_str path]])
  ∧ (∀ package,
       invocations (snd (uninstall inst package m))
       = invocations m ++ [[sys_executable; "-m"; "pip"; "uninstall"; "-y"; package]]).
Proof.
  repeat split.
  - intros package version upgrade. unfold install_pypi.
    rewrite run_pip_invocations, version_suffix. by destruct upgrade.
  - intros url ref subdirectory editable. unfold install_git.
    rewrite run_pip_invocations, git_reference. by destruct editable.
  - intros path editable. unfold install_local.
    rewrite run_pip_invocations. by destruct editable.
  - intros package. unfold uninstall. by rewrite run_pip_invocations.
Qed.

(** [_run_pip] reports success exactly when the child process completed
    with exit code 0, and the message is then its stdout followed by its
    stderr; an exception of [subprocess.run] is reported as a failure. *)
Theorem run_pip_success_iff (inst : PackageInstaller) (args : list string)
    (m : machine) :
  let r := fst (subprocess_run (world m) ([sys_executable; "-m"; "pip"] ++ args)
                  (timeout inst)) in
  (fst (fst (_run_pip inst args m)) = true
   ↔ ∃ out err, r = CompletedProcess 0 out err)
  ∧ (∀ out err, r = CompletedProcess 0 out err →
                fst (_run_pip inst args m) = (true, out +:+ err))
  ∧ (∀ e, r = RunRaises e →
          fst (_run_pip inst args m) = (false, "Error running pip: " +:+ str_exn e)).
Proof.
  simpl. unfold _run_pip.
  destruct (subprocess_run (world m) _ (timeout inst)) as [r w]. simpl.
  repeat split.
  - destruct r as [rc out err| |e]; simpl; [|done..].
    intros Hrc. apply Z.eqb_eq in Hrc as ->. eauto.
  - by intros (out & err & ->).
  - by intros out err ->.
  - by intros e ->.
Qed.


(** For a spec that validates, [install_from_spec] does not raise and
    starts one child process: [pip install] with the reference
    [get_install_spec] returns for a PyPI or git spec, and [pip install],
    [-e] unless [editable] is false, and the path for a local spec. *)
Theorem installer_runs_resolved_reference (inst : PackageInstaller)
    (spec : PluginSpec) (m : machine) :
  validate spec = Ok () →
  (∃ r, fst (install_from_spec inst spec m) = Ok r)
  ∧ (source spec ≠ "local" →
     ∃ reference,
       get_install_spec spec = Ok reference
       ∧ invocations (snd (install_from_spec inst spec m))
         = invocations m ++ [[sys_executable; "-m"; "pip"; "install"; reference]])
  ∧ (source spec = "local" →
     ∃ p,
       get_install_spec spec = Ok p
       ∧ invocations (snd (install_from_spec inst spec m))
         = invocations m
           ++ [[sys_executable; "-m"; "pip"; "install"]
               ++ (if editable spec then ["-e"] else []) ++ [path_str p]]).
Proof.
  intros (Hname & Hsrc & Hreq)%validate_ok_inv. unfold required_field in Hreq.
  destruct (install_from_spec_invocations inst spec m) as (Hpypi & Hgit & Hlocal).
  destruct Hsrc as [Hs | [Hs | Hs]]; rewrite Hs in Hreq; simpl in Hreq;
    destruct Hreq as (p & Hp & Hne).
  - split; [|split; [intros _ | by rewrite Hs]].
    + unfold install_from_spec. rewrite Hs. simpl.
      destruct (install_pypi _ _ _ _ _). eauto.
    + rewrite (Hpypi Hs). unfold get_install_spec. rewrite Hs, Hp. simpl.
      rewrite (proj2 (str_truthy_true p) Hne).
      destruct (truthy (version spec)); eauto.
  - split; [|split; [intros _ | by rewrite Hs]].
    + unfold install_from_spec. rewrite Hs, Hp. simpl.
      rewrite (proj2 (str_truthy_true p) Hne). simpl.
      destruct (install_git _ _ _ _ _ _). eauto.
    + rewrite (Hgit p Hs Hp Hne). eexists. split; [|done].
      unfold get_install_spec. rewrite Hs, Hp. simpl.
      by rewrite git_reference.
  - split; [|split; [by rewrite Hs | intros _]].
    + unfold install_from_spec. rewrite Hs, Hp. simpl.
      rewrite (proj2 (str_truthy_true p) Hne). simpl.
      destruct (install_local _ _ _ _). eauto.
    + rewrite (Hlocal p Hs Hp Hne). exists p. split; [|done].
      unfold get_install_spec. rewrite Hs, Hp. simpl.
      by rewrite (proj2 (str_truthy_true p) Hne).
Qed.

(** Whatever the spec, [install_from_spec] starts at most one child
    process, and it is a [pip install]. *)
Lemma install_from_spec_at_most_one (inst : PackageInstaller) (spec : PluginSpec)
    (m : machine) :
  invocations (snd (install_from_spec inst spec m)) = invocations m
  ∨ ∃ rest,
      invocations (snd (install_from_spec inst spec m))
      = invocations m ++ [[sys_executable; "-m"; "pip"; "install"] ++ rest].
Proof.
  unfold install_from_spec.
  destruct (String.eqb (source spec) "pypi").
  { right. destruct (install_pypi _ _ _ _ _) as [r m'] eqn:Hrun. simpl.
    apply (f_equal snd) in Hrun. simpl in Hrun. subst m'.
    unfold install_pypi. rewrite run_pip_invocations. eauto. }
  destruct (String.eqb (source spec) "git").
  { destruct (negb (truthy (url spec))); [by left|]. right.
    destruct (install_git _ _ _ _ _ _) as [r m'] eqn:Hrun. simpl.
    apply (f_equal snd) in Hrun. simpl in Hrun. subst m'.
    unfold install_git. rewrite run_pip_invocations. eauto. }
  destruct (String.eqb (source spec) "local"); [|by left].
  destruct (negb (truthy (path spec))); [by left|]. right.
  destruct (install_local _ _ _ _) as [r m'] eqn:Hrun. simpl.
  apply (f_equal snd) in Hrun. simpl in Hrun. subst m'.
  unfold install_local. rewrite run_pip_invocations.
  destruct (editable spec); eauto.
Qed.

End InstallerMore.

Lemma init_timeout_witness :
  Installer.timeout (Installer.init (Some (PyInt 0))) = PyInt 300.
Proof.
  refine (proj1 (proj2 (proj2 (init_timeout (Some (PyInt 0))))) (PyInt 0) _ _);
    reflexivity.
Defined.

Lemma run_pip_success_iff_witness :
  fst (Installer._run_pip (Installer.init None) ["install"; "foo"]
         (fresh {| runs := [RunRaises (OtherException "No such file")];
                   versions := []; provided := [] |}))
  = (false, "Error running pip: No such file").
Proof.
  refine (proj2 (proj2 (run_pip_success_iff _ _ _))
            (OtherException "No such file") _).
  reflexivity.
Defined.


Lemma installer_runs_resolved_reference_witness :
  ∃ reference,
    get_install_spec git_example = Ok reference
    ∧ Installer.invocations
        (snd (Installer.install_from_spec (Installer.init None) git_example
                (fresh idle)))
      = Installer.invocations (fresh idle)
        ++ [["python"; "-m"; "pip"; "install"; reference]].
Proof.
  refine (proj1 (proj2 (installer_runs_resolved_reference
                          (Installer.init None) git_example (fresh idle) _)) _);
    done.
Defined.

Example uninstall_command :
  Installer.invocations (snd (Installer.uninstall (Installer.init None) "foo" (fresh idle)))
  = [["python"; "-m"; "pip"; "uninstall"; "-y"; "foo"]].
Proof. reflexivity. Qed.

(* ===================================================================== *)
(** * Further properties of core/registry.py                              *)
(* ===================================================================== *)

Section RegistryMore.
Import Registry.

Lemma is_dict_true (v : jval) : is_dict v = true ↔ ∃ d, v = JDict d.
Proof. destruct v; simpl; split; try done; eauto; by intros [? ?]. Qed.

Lemma jeq_str_true (v : jval) (s : string) : jeq_str v s = true ↔ v = JStr s.
Proof.
  destruct v; simpl; split; try done.
  - by intros ->%String.eqb_eq.
  - intros [= ->]. apply String.eqb_refl.
Qed.

Lemma status_is_has_status (v : jval) (s : PluginStatus) :
  status_is (value s) v = true ↔ has_status v s.
Proof.
  unfold has_status. destruct v as [| | | | | |d]; simpl;
    try (split; [done | by intros (? & ? & ?)]).
  destruct (d !! "status") as [st|] eqn:Hst.
  - rewrite jeq_str_true. split.
    + intros ->. eauto.
    + intros (d' & [= <-] & Hst'). rewrite Hst in Hst'. by injection Hst'.
  - split; [done|]. intros (d' & [= <-] & Hst'). by rewrite Hst in Hst'.
Qed.

(** [register_plugin] replaces the record of the plugin as a whole: the
    new record has the six fields it was given, an [error] only when a
    non-empty one was passed, and an empty list of entry points when none
    was passed, whatever was stored before; the other records stay. *)
Theorem register_plugin_get (plugins : gmap string jval) pid name source
    package version status entry_points error :
  let plugins' := register_plugin plugins pid name source package version
                    status entry_points error in
  (∃ d, get_plugin plugins' pid = Some (JDict d)
        ∧ d !! "name" = Some (JStr name)
        ∧ d !! "source" = Some (JStr source)
        ∧ d !! "package" = Some (of_opt package)
        ∧ d !! "version" = Some (of_opt version)
        ∧ d !! "status" = Some (JStr (value status))
        ∧ d !! "entry_points" = Some (JList (JStr <$> default [] entry_points))
        ∧ d !! "error" = (if truthy error then Some (of_opt error) else None))
  ∧ get_plugin plugins' pid
    = get_plugin (register_plugin ∅ pid name source package version status
                    entry_points error) pid
  ∧ (∀ pid', pid' ≠ pid → get_plugin plugins' pid' = get_plugin plugins pid').
Proof.
  simpl. unfold get_plugin, register_plugin. repeat split.
  - eexists. split; [apply lookup_insert_eq|].
    destruct (truthy error); by simplify_map_eq.
  - by rewrite !lookup_insert_eq.
  - intros pid' Hne. by rewrite lookup_insert_ne.
Qed.

(** [update_status] on an id that is not registered changes nothing and
    does not raise; on a stored dict it sets the status and touches no key
    but [status] and [error], and no other record; on a stored value that
    is not a dict it raises TypeError. *)
Theorem update_status_frame (plugins : gmap string jval) pid status error :
  (plugins !! pid = None → update_status plugins pid status error = Ok plugins)
  ∧ (∀ d, plugins !! pid = Some (JDict d) →
          ∃ d', update_status plugins pid status error
                = Ok (<[pid := JDict d']> plugins)
                ∧ d' !! "status" = Some (JStr (value status))
                ∧ ∀ k, k ≠ "status" → k ≠ "error" → d' !! k = d !! k)
  ∧ (∀ v, plugins !! pid = Some v → is_dict v = false →
          ∃ msg, update_status plugins pid status error = Raise (TypeError msg)).
Proof.
  unfold update_status. repeat split.
  - by intros ->.
  - intros d ->. eexists. split; [done|]. split.
    + destruct (truthy error); [by simplify_map_eq|].
      destruct (_ && _); by simplify_map_eq.
    + intros k Hs He.
      destruct (truthy error); [by simplify_map_eq|].
      destruct (_ && _); by simplify_map_eq.
  - intros v -> Hv. destruct v; try done; eauto.
Qed.

(** [remove_plugin] forgets the plugin and nothing else; removing an id
    that is not registered changes nothing, and removing a plugin that was
    registered on a free id gives the registry back as it was. *)
Theorem remove_plugin_get (plugins : gmap string jval) pid :
  get_plugin (remove_plugin plugins pid) pid = None
  ∧ is_installed (remove_plugin plugins pid) pid = Ok false
  ∧ (∀ pid', pid' ≠ pid →
             get_plugin (remove_plugin plugins pid) pid' = get_plugin plugins pid')
  ∧ (plugins !! pid = None →
     remove_plugin plugins pid = plugins
     ∧ ∀ name source package version status entry_points error,
         remove_plugin (register_plugin plugins pid name source package version
                          status entry_points error) pid
         = plugins).
Proof.
  unfold remove_plugin, get_plugin, is_installed, get_plugin, register_plugin.
  repeat split.
  - apply lookup_delete_eq.
  - by rewrite lookup_delete_eq.
  - intros pid' Hne. by rewrite lookup_delete_ne.
  - by apply delete_id.
  - intros. rewrite delete_insert_eq. by apply delete_id.
Qed.

(** [update_entry_points] on a stored dict sets its list of entry points,
    keeps every other key of the record and every other record, and so
    keeps what [is_installed] answers; on an id that is not registered it
    changes nothing. *)
Theorem update_entry_points_get (plugins : gmap string jval) pid
    (entry_points : list jval) :
  (plugins !! pid = None → update_entry_points plugins pid entry_points = Ok plugins)
  ∧ (∀ d, plugins !! pid = Some (JDict d) →
          ∃ d', update_entry_points plugins pid entry_points
                = Ok (<[pid := JDict d']> plugins)
                ∧ d' !! "entry_points" = Some (JList entry_points)
                ∧ (∀ k, k ≠ "entry_points" → d' !! k = d !! k)
                ∧ ∀ pid', is_installed (<[pid := JDict d']> plugins) pid'
                          = is_installed plugins pid').
Proof.
  unfold update_entry_points. split; [by intros ->|].
  intros d Hd. rewrite Hd. eexists. split; [done|].
  split; [by simplify_map_eq|]. split; [intros k Hk; by simplify_map_eq|].
  intros pid'. unfold is_installed, get_plugin.
  destruct (decide (pid = pid')) as [<-|Hne]; [|by rewrite lookup_insert_ne].
  rewrite lookup_insert_eq, Hd. rewrite lookup_insert_ne by done.
  assert (Htruthy : jtruthy (JDict (<["entry_points" := JList entry_points]> d))
                    = true).
  { simpl. rewrite bool_decide_eq_false_2; [done|]. apply insert_non_empty. }
  rewrite Htruthy. simpl.
  destruct (bool_decide (d = ∅)) eqn:Hempty; simpl; [|done].
  apply bool_decide_eq_true in Hempty as ->. by rewrite lookup_empty.
Qed.

Lemma is_installed_cases (plugins : gmap string jval) pid :
  (is_installed plugins pid = Ok true
   ↔ ∃ v, plugins !! pid = Some v ∧ has_status v INSTALLED)
  ∧ ((∃ e, is_installed plugins pid = Raise e)
     ↔ ∃ v, plugins !! pid = Some v ∧ jtruthy v = true ∧ is_dict v = false).
Proof.
  unfold is_installed, get_plugin.
  destruct (plugins !! pid) as [v|] eqn:Hv.
  2:{ split; split; try done;
        first [by intros (? & ? & _) | by intros [? ?]]. }
  destruct (jtruthy v) eqn:Htruthy; simpl.
  - destruct v as [| | | | | |d]; simpl;
      try (split; split;
           [done | by intros (? & [= <-] & (? & ? & _)) | eauto
           | intros _; eauto]).
    split; split.
    + intros [= Hst]. exists (JDict d). split; [done|].
      apply (status_is_has_status _ INSTALLED). simpl.
      by destruct (d !! "status").
    + intros (v & [= <-] & Hst%status_is_has_status). simpl in Hst.
      by destruct (d !! "status"); rewrite ?Hst.
    + by intros [? ?].
    + by intros (v & [= <-] & _ & ?).
  - split; split.
    + done.
    + intros (v' & [= <-] & (d & -> & Hst)).
      by rewrite (jtruthy_dict _ _ _ Hst) in Htruthy.
    + by intros [? ?].
    + intros (v' & [= <-] & Ht & _). by rewrite Ht in Htruthy.
Qed.

(** [is_installed] answers [True] exactly for a stored dict whose status
    is installed, and raises exactly for a stored value that is truthy and
    not a dict. *)
Theorem is_installed_iff (plugins : gmap string jval) pid :
  (is_installed plugins pid = Ok true
   ↔ ∃ v, plugins !! pid = Some v ∧ has_status v INSTALLED)
  ∧ ((∃ e, is_installed plugins pid = Raise e)
     ↔ ∃ v, plugins !! pid = Some v ∧ jtruthy v = true ∧ is_dict v = false).
Proof. apply is_installed_cases. Qed.

(** On a registry of dicts [get_plugins_by_status] returns the records
    that have the status and no other; for the status installed these are
    the plugins [is_installed] accepts.  One stored value that is not a
    dict makes it raise AttributeError. *)
Theorem get_plugins_by_status_spec (plugins : gmap string jval)
    (status : PluginStatus) :
  (dict_records plugins →
   ∃ found, get_plugins_by_status plugins status = Ok found
            ∧ (∀ pid v, found !! pid = Some v
                        ↔ plugins !! pid = Some v ∧ has_status v status)
            ∧ (status = INSTALLED →
               ∀ pid, is_Some (found !! pid) ↔ is_installed plugins pid = Ok true))
  ∧ (¬ dict_records plugins →
     ∃ msg, get_plugins_by_status plugins status = Raise (AttributeError msg)).
Proof.
  unfold get_plugins_by_status. split.
  - intros Hdict. rewrite bool_decide_eq_true_2.
    2:{ intros pid v Hv. apply is_dict_true. by eapply Hdict. }
    eexists. split; [done|].
    assert (Hfound : ∀ pid v,
              filter (λ kv : string * jval, status_is (value status) kv.2 = true)
                plugins !! pid = Some v
              ↔ plugins !! pid = Some v ∧ has_status v status).
    { intros pid v. rewrite map_lookup_filter_Some. simpl.
      by rewrite status_is_has_status. }
    split; [exact Hfound|].
    intros -> pid. rewrite (proj1 (is_installed_cases plugins pid)).
    split.
    + intros [v Hv]. exists v. by apply Hfound.
    + intros (v & Hv). exists v. by apply Hfound.
  - intros Hdict. rewrite bool_decide_eq_false_2; [eauto|].
    intros Hall. apply Hdict. intros pid v Hv.
    apply is_dict_true. by apply (Hall pid v).
Qed.

End RegistryMore.

Lemma register_plugin_get_witness :
  Registry.get_plugin foo_table "ghost" = Registry.get_plugin ∅ "ghost".
Proof.
  refine (proj2 (proj2 (register_plugin_get ∅ "foo" "foo" "pypi" (Some "foo")
                          (Some "1.2.0") Registry.INSTALLED None None))
            "ghost" _).
  done.
Defined.

Lemma update_status_frame_witness :
  Registry.update_status ∅ "ghost" Registry.INSTALLED None = Ok ∅.
Proof.
  refine (proj1 (update_status_frame ∅ "ghost" Registry.INSTALLED None) _).
  apply lookup_empty.
Defined.

Lemma remove_plugin_get_witness :
  Registry.remove_plugin
    (Registry.register_plugin ∅ "foo" "foo" "pypi" (Some "foo") None
       Registry.PENDING None None) "foo"
  = ∅.
Proof.
  refine (proj2 (proj2 (proj2 (proj2 (remove_plugin_get ∅ "foo"))) _)
            "foo" "pypi" (Some "foo") None Registry.PENDING None None).
  apply lookup_empty.
Defined.

Lemma update_entry_points_get_witness :
  Registry.update_entry_points ∅ "ghost" [JStr "vllm.general_plugins:x"] = Ok ∅.
Proof.
  refine (proj1 (update_entry_points_get ∅ "ghost" _) _). apply lookup_empty.
Defined.

Lemma is_installed_iff_witness :
  Registry.is_installed (<["foo" := JInt 5]> ∅) "foo"
  = Raise (AttributeError "object has no attribute 'get'").
Proof.
  destruct (proj2 (proj2 (is_installed_iff (<["foo" := JInt 5]> ∅) "foo")))
    as [e He].
  - exists (JInt 5). by rewrite lookup_insert_eq.
  - reflexivity.
Defined.

Lemma get_plugins_by_status_spec_witness :
  ∃ found,
    Registry.get_plugins_by_status foo_table Registry.INSTALLED = Ok found
    ∧ (∀ pid v, found !! pid = Some v
                ↔ foo_table !! pid = Some v ∧ has_status v Registry.INSTALLED)
    ∧ (Registry.INSTALLED = Registry.INSTALLED →
       ∀ pid, is_Some (found !! pid)
              ↔ Registry.is_installed foo_table pid = Ok true).
Proof.
  apply get_plugins_by_status_spec.
  intros pid v. unfold foo_table, Registry.register_plugin.
  destruct (decide (pid = "foo")) as [->|Hne].
  - rewrite lookup_insert_eq. intros [= <-]. eauto.
  - rewrite lookup_insert_ne by done. by rewrite lookup_empty.
Defined.

(* ===================================================================== *)
(** * Properties of core/discovery.py                                     *)
(* ===================================================================== *)

Section DiscoveryFacts.
Import Discovery.
Context {World : Type} `{Host World}.

(** Looking a group up in a dict built over a list of groups. *)
Lemma get_group_over {A} (f : string → list A) (groups : list string)
    (group : string) :
  get_group (map (λ g, (g, f g)) groups) group
  = if decide (group ∈ groups) then f group else [].
Proof.
  unfold get_group. induction groups as [|g groups IH].
  - by rewrite decide_False by apply not_elem_of_nil.
  - cbn [map find fst]. destruct (String.eqb g group) eqn:Hg.
    + apply String.eqb_eq in Hg as ->. cbn [snd].
      rewrite decide_True; [done | by left].
    + apply String.eqb_neq in Hg. rewrite IH.
      destruct (decide (group ∈ groups)) as [Hin|Hnin].
      * rewrite decide_True; [done | by right].
      * rewrite decide_False; [done|].
        intros [?|?]%elem_of_cons; [congruence | done].
Qed.

Lemma take_snapshot_groups (w : World) :
  take_snapshot w
  = Some (map (λ g, (g, map entry_point_to_dict (entry_points_select w g)))
              VLLM_ENTRY_POINT_GROUPS).
Proof. reflexivity. Qed.

(** What the diff against a snapshot holds for a group. *)
Lemma get_new_entry_points_group
    (snapshot : by_group (string * string * string)) (w : World) (group : string) :
  get_group (get_new_entry_points (Some snapshot) w) group
  = if decide (group ∈ VLLM_ENTRY_POINT_GROUPS)
    then filter (λ ep, (ep_name ep, ep_value ep) ∉ snapshot_pairs snapshot group)
           (entry_points_select w group)
    else [].
Proof.
  unfold get_new_entry_points.
  rewrite (get_group_over
             (λ group,
                filter (λ ep, (ep_name ep, ep_value ep)
                              ∉ map (λ ep : string * string * string,
                                       (fst (fst ep), snd (fst ep)))
                                    (get_group snapshot group))
                  (get_group (get_vllm_entry_points w) group))).
  destruct (decide (group ∈ VLLM_ENTRY_POINT_GROUPS)) as [Hin|Hnin]; [|done].
  unfold get_vllm_entry_points.
  rewrite (get_group_over (entry_points_select w)).
  by rewrite decide_True.
Qed.

(** The diff reports an entry point for a known group exactly when it is
    visible now and its (name, value) pair is not in the snapshot of that
    group, in the order the host lists them; it reports nothing for any
    other group, and its keys are the four known groups. *)
Theorem new_entry_points_iff
    (snapshot : by_group (string * string * string)) (w : World) :
  (∀ group ep,
     group ∈ VLLM_ENTRY_POINT_GROUPS →
     ep ∈ get_group (get_new_entry_points (Some snapshot) w) group
     ↔ ep ∈ entry_points_select w group
       ∧ (ep_name ep, ep_value ep) ∉ snapshot_pairs snapshot group)
  ∧ (∀ group, is_vllm_entry_point_group group = false →
              get_group (get_new_entry_points (Some snapshot) w) group = [])
  ∧ map fst (get_new_entry_points (Some snapshot) w) = VLLM_ENTRY_POINT_GROUPS.
Proof.
  split; [|split].
  - intros group ep Hgroup.
    rewrite get_new_entry_points_group, decide_True by done.
    rewrite list_elem_of_filter. tauto.
  - intros group Hgroup. rewrite get_new_entry_points_group.
    rewrite decide_False; [done|]. unfold is_vllm_entry_point_group in Hgroup.
    by apply bool_decide_eq_false in Hgroup.
  - reflexivity.
Qed.

(** Nothing is new without a change: the diff is empty for every group
    before any snapshot was taken, and right after one on the same host. *)
Theorem nothing_new_without_change (w : World) (group : string) :
  get_group (get_new_entry_points None w) group = []
  ∧ get_group (get_new_entry_points (take_snapshot w) w) group = [].
Proof.
  split.
  - unfold get_new_entry_points.
    rewrite (get_group_over (λ _, @nil EntryPoint)). by case_decide.
  - rewrite take_snapshot_groups, get_new_entry_points_group.
    case_decide as Hin; [|done].
    apply elem_of_nil_inv. intros ep [Hnot Hep]%list_elem_of_filter.
    apply Hnot. unfold snapshot_pairs.
    rewrite (get_group_over
               (λ g, map entry_point_to_dict (entry_points_select w g))).
    rewrite decide_True by done. rewrite map_map. simpl.
    apply list_elem_of_In. apply list_elem_of_In in Hep.
    by apply (in_map (λ ep, (ep_name ep, ep_value ep))) in Hep.
Qed.

End DiscoveryFacts.

Lemma new_entry_points_iff_witness :
  Discovery.get_group
    (Discovery.get_new_entry_points (Some [])
       {| runs := []; versions := []; provided := [] |})
    "vllm.not_a_group"
  = [].
Proof.
  refine (proj1 (proj2 (new_entry_points_iff [] idle)) "vllm.not_a_group" _).
  reflexivity.
Defined.

(** On the host of [healthy], once its script is over, the entry point of
    [foo] is new against a snapshot taken before. *)
Example healthy_new_entry_points :
  Discovery.get_group
    (Discovery.get_new_entry_points
       (Discovery.take_snapshot (Installer.world (Manager.host healthy)))
       (Installer.world (Manager.host (snd (returned healthy)))))
    "vllm.general_plugins"
  = [ {| ep_name := "foo_register"; ep_value := "foo:register";
         ep_group := "vllm.general_plugins"; ep_dist := Some "foo" |} ].
Proof. vm_compute. reflexivity. Qed.

(* ===================================================================== *)
(** * Further properties of manager.py                                    *)
(* ===================================================================== *)

Set Warnings "-clear-no-such-hyp".

Section ManagerMore.
Import Installer Registry Discovery Manager.
Context {World : Type} `{Host World}.

(** The record and the result one turn of the loop writes. *)
Lemma install_one_writes (inst : PackageInstaller) (st st' : @pass World)
    (spec : PluginSpec) :
  install_one inst st spec = Ok st' →
  (∃ entry, results st' = <[plugin_id spec := entry]> (results st))
  ∧ (mach st' = mach st ∨ mach st' = snd (install_from_spec inst spec (mach st))).
Proof.
  intros Hone.
  destruct (is_installed (reg st) (plugin_id spec)) as [[]|e] eqn:Hinst.
  - rewrite (install_one_installed _ _ _ Hinst) in Hone. injection Hone as <-.
    simpl. eauto.
  - destruct (install_one_not_installed inst st spec Hinst)
      as (st1 & d & entry & Hone1 & _ & Hres & Hmach & _).
    rewrite Hone1 in Hone. injection Hone as <-. eauto.
  - unfold install_one in Hone. by rewrite Hinst in Hone.
Qed.

Lemma install_loop_dom (inst : PackageInstaller) (specs : list PluginSpec)
    (st st' : @pass World) :
  install_loop inst specs st = Ok st' →
  dom (results st') = list_to_set (plugin_id <$> specs) ∪ dom (results st).
Proof.
  revert st. induction specs as [|spec rest IH]; intros st Hloop;
    cbn [install_loop] in Hloop.
  - injection Hloop as <-. set_solver.
  - destruct (install_one inst st spec) as [st1|e] eqn:Hone; [|done].
    rewrite (IH _ Hloop).
    destruct (install_one_writes _ _ _ _ Hone) as [[entry ->] _].
    rewrite dom_insert_L, fmap_cons. set_solver.
Qed.

(** The keys of the dict [install_plugins] returns are the plugin ids of
    the enabled specs: every enabled plugin has a result, and no disabled
    or undeclared one has. *)
Theorem install_plugins_result_keys (self self' : PluginManager)
    (results' : gmap string (bool * string)) :
  install_plugins self = Ok (results', self') →
  dom results' = list_to_set (plugin_id <$> get_enabled_plugins (config self)).
Proof.
  unfold install_plugins.
  destruct (get_enabled_plugins (config self)) as [|spec0 rest] eqn:Henabled.
  { intros [= <- <-]. set_solver. }
  destruct (install_loop (installer self) (spec0 :: rest) _) as [st|e] eqn:Hloop;
    [|done].
  apply install_loop_dom in Hloop. simpl in Hloop.
  destruct (installed_any st); intros [= <- <-]; rewrite Hloop; set_solver.
Qed.

Lemma install_loop_invocations (inst : PackageInstaller) (specs : list PluginSpec)
    (st st' : @pass World) :
  install_loop inst specs st = Ok st' →
  ∃ new, invocations (mach st') = invocations (mach st) ++ new
         ∧ (List.length new ≤ List.length specs)%nat
         ∧ Forall pip_install new.
Proof.
  revert st. induction specs as [|spec rest IH]; intros st Hloop;
    cbn [install_loop] in Hloop.
  - injection Hloop as <-. exists []. by rewrite app_nil_r.
  - destruct (install_one inst st spec) as [st1|e] eqn:Hone; [|done].
    destruct (IH _ Hloop) as (new & -> & Hlen & Hall).
    destruct (install_one_writes _ _ _ _ Hone) as [_ [-> | ->]].
    + exists new. split; [done|]. split; [simpl; lia | done].
    + destruct (install_from_spec_at_most_one inst spec (mach st))
        as [-> | [tail ->]].
      * exists new. split; [done|]. split; [simpl; lia | done].
      * eexists (_ :: new). split; [by rewrite <- app_assoc|].
        split; [simpl; lia|]. constructor; [by exists tail | done].
Qed.

(** [install_plugins] only adds to the child processes started so far, it
    starts at most one per enabled spec, and every one of them is a
    [pip install]: it never uninstalls and never runs anything else. *)
Theorem install_plugins_invocations (self self' : PluginManager)
    (results' : gmap string (bool * string)) :
  install_plugins self = Ok (results', self') →
  ∃ new, invocations (host self') = invocations (host self) ++ new
         ∧ (List.length new ≤ List.length (get_enabled_plugins (config self)))%nat
         ∧ Forall pip_install new.
Proof.
  unfold install_plugins.
  destruct (get_enabled_plugins (config self)) as [|spec0 rest] eqn:Henabled.
  { intros [= <- <-]. exists []. by rewrite app_nil_r. }
  destruct (install_loop (installer self) (spec0 :: rest) _) as [st|e] eqn:Hloop;
    [|done].
  apply install_loop_invocations in Hloop as (new & Hnew & Hlen & Hall).
  simpl in Hnew.
  destruct (installed_any st); intros [= <- <-]; exists new; simpl; done.
Qed.

(** What attributing one entry point does: nothing, or it appends the
    string to the list of a stored, non-empty dict that did not have it. *)
Lemma attribute_entry_point_eq (reg : gmap string jval) (group : string)
    (ep : EntryPoint) :
  attribute_entry_point reg group ep = reg
  ∨ ∃ pkg d l,
      ep_dist ep = Some pkg
      ∧ reg !! pkg = Some (JDict d)
      ∧ default (JList []) (d !! "entry_points") = JList l
      ∧ existsb (λ v, jeq_str v (group +:+ ":" +:+ ep_name ep)) l = false
      ∧ attribute_entry_point reg group ep
        = <[pkg := JDict (<["entry_points" :=
                              JList (l ++ [JStr (group +:+ ":" +:+ ep_name ep)])]> d)]>
            reg.
Proof.
  unfold attribute_entry_point.
  destruct (ep_dist ep) as [pkg|]; [|by left].
  unfold get_plugin.
  destruct (reg !! pkg) as [[| | | | | |d]|] eqn:Hpkg; try by left.
  destruct (jtruthy (JDict d)); [|by left].
  destruct (default (JList []) (d !! "entry_points")) as [| | | | |l|] eqn:Hcur;
    try by left.
  destruct (existsb _ l) eqn:Hmem; [by left|].
  right. exists pkg, d, l. unfold update_entry_points. by rewrite Hpkg.
Qed.

(** Entry points are attributed without duplicates: attributing the same
    entry point a second time changes nothing, and an attribution keeps
    the strings the record had and adds at most the one of this entry
    point, at the end, when the record did not have it. *)
Theorem attribute_entry_point_idempotent (reg : gmap string jval)
    (group : string) (ep : EntryPoint) :
  attribute_entry_point (attribute_entry_point reg group ep) group ep
  = attribute_entry_point reg group ep
  ∧ (∀ pid d l,
       reg !! pid = Some (JDict d) → d !! "entry_points" = Some (JList l) →
       ∃ d', attribute_entry_point reg group ep !! pid = Some (JDict d')
             ∧ (d' !! "entry_points" = Some (JList l)
                ∨ (d' !! "entry_points"
                   = Some (JList (l ++ [JStr (group +:+ ":" +:+ ep_name ep)]))
                   ∧ JStr (group +:+ ":" +:+ ep_name ep) ∉ l))).
Proof.
  destruct (attribute_entry_point_eq reg group ep)
    as [Hsame | (pkg & d & l & Hdist & Hpkg & Hcur & Hmem & Hnew)].
  { rewrite !Hsame. split; [done|]. intros pid d l Hd Hl. eauto. }
  rewrite Hnew. split.
  - unfold attribute_entry_point. rewrite Hdist. unfold get_plugin.
    rewrite lookup_insert_eq.
    rewrite (jtruthy_dict _ "entry_points" _ (lookup_insert_eq _ _ _)).
    rewrite lookup_insert_eq. simpl.
    rewrite existsb_app. simpl. rewrite String.eqb_refl.
    by rewrite orb_true_r.
  - intros pid d0 l0 Hd Hl.
    destruct (decide (pkg = pid)) as [<-|Hne].
    + rewrite Hpkg in Hd. injection Hd as <-. rewrite Hl in Hcur. simpl in Hcur.
      injection Hcur as <-.
      eexists. split; [apply lookup_insert_eq|]. right.
      split; [apply lookup_insert_eq|].
      intros Hin. apply list_elem_of_In in Hin.
      assert (Hex : existsb (λ v, jeq_str v (group +:+ ":" +:+ ep_name ep)) l0
                    = true).
      { apply existsb_exists. eexists. split; [exact Hin|]. simpl.
        apply String.eqb_refl. }
      by rewrite Hex in Hmem.
    + exists d0. rewrite lookup_insert_ne by done. eauto.
Qed.

Lemma entry_points_appended_trans (v1 v2 v3 : option jval) :
  entry_points_appended v1 v2 → entry_points_appended v2 v3 →
  entry_points_appended v1 v3.
Proof.
  intros [-> | (d1 & d2 & l & a1 & -> & -> & H12 & Hl & Hl2)]; [done|].
  intros [-> | (d2' & d3 & l' & a2 & [= <-] & -> & H23 & Hl' & Hl3)].
  - right. exists d1, d2, l, a1. eauto.
  - right. exists d1, d3, l, (a1 ++ a2). split; [done|]. split; [done|].
    split; [intros k Hk; by rewrite H23, H12|]. split; [done|].
    rewrite Hl2 in Hl'. simpl in Hl'. injection Hl' as <-.
    by rewrite Hl3, fmap_app, app_assoc.
Qed.

Lemma attribute_entry_point_frame (reg : gmap string jval) (group : string)
    (ep : EntryPoint) pid :
  entry_points_appended (reg !! pid) (attribute_entry_point reg group ep !! pid).
Proof.
  destruct (attribute_entry_point_eq reg group ep)
    as [-> | (pkg & d & l & _ & Hpkg & Hcur & _ & ->)]; [by left|].
  destruct (decide (pkg = pid)) as [<-|Hne].
  - right. eexists d, _, l, [group +:+ ":" +:+ ep_name ep].
    split; [done|]. split; [apply lookup_insert_eq|].
    split; [intros k Hk; by rewrite lookup_insert_ne|]. split; [done|].
    apply lookup_insert_eq.
  - left. by rewrite lookup_insert_ne.
Qed.

Lemma update_entry_points_frame (reg : gmap string jval)
    (snapshot : option (by_group (string * string * string))) (w : World) pid :
  entry_points_appended (reg !! pid) (_update_entry_points reg snapshot w !! pid).
Proof.
  unfold _update_entry_points.
  generalize (get_new_entry_points snapshot w). intros new_eps. revert reg.
  induction new_eps as [|[group eps] rest IH]; intros reg; simpl; [by left|].
  eapply entry_points_appended_trans; [|apply IH]. clear IH. revert reg.
  induction eps as [|ep eps IH]; intros reg; simpl; [by left|].
  eapply entry_points_appended_trans; [|apply IH].
  apply attribute_entry_point_frame.
Qed.

(** A plugin that no enabled spec names is left alone by
    [install_plugins]: it gets no result, a record it does not have is not
    created, and a record it has is kept as it is, but for entry point
    names that may be appended to its [entry_points] list: every other key
    keeps its value, and the names the list had stay, in place. *)
Theorem install_plugins_frame (self self' : PluginManager)
    (results' : gmap string (bool * string)) pid :
  install_plugins self = Ok (results', self') →
  pid ∉ plugin_id <$> get_enabled_plugins (config self) →
  results' !! pid = None
  ∧ entry_points_appended (registry self !! pid) (registry self' !! pid)
  ∧ (registry self !! pid = None → registry self' !! pid = None).
Proof.
  intros Hcall Hnin.
  assert (Hframe : results' !! pid = None
                   ∧ entry_points_appended (registry self !! pid)
                       (registry self' !! pid)).
  { unfold install_plugins in Hcall.
    destruct (get_enabled_plugins (config self)) as [|spec0 rest] eqn:Henabled.
    { injection Hcall as <- <-. split; [apply lookup_empty | by left]. }
    destruct (install_loop (installer self) (spec0 :: rest) _) as [st|e] eqn:Hloop;
      [|done].
    destruct (install_loop_frame _ _ _ _ _ Hloop Hnin) as [Hres Hreg].
    simpl in Hres, Hreg. rewrite lookup_empty in Hres.
    destruct (installed_any st); injection Hcall as <- <-; simpl;
      (split; [done|]); rewrite <- Hreg; [|by left].
    apply update_entry_points_frame. }
  destruct Hframe as [Hres Hreg]. split; [done|]. split; [done|].
  intros Hnone. rewrite Hnone in Hreg.
  by destruct Hreg as [-> | (d & d' & l & added & [=] & _)].
Qed.

Lemma install_one_succeeds (inst : PackageInstaller) (st : @pass World)
    (spec : PluginSpec) (message : string) (m' : @machine World)
    (version : option string) :
  is_installed (reg st) (plugin_id spec) = Ok false →
  install_from_spec inst spec (mach st) = (Ok (true, message), m') →
  get_installed_version (or_str (package spec) (name spec)) m' = Ok version →
  install_one inst st spec
  = Ok {| results := <[plugin_id spec
                       := (true, "Installed " +:+ or_str version "successfully")]>
                       (results st);
          installed_any := true;
          reg := register_plugin (reg st) (plugin_id spec) (name spec)
                   (source spec) (package spec) version INSTALLED None None;
          mach := m' |}.
Proof.
  intros Hnot Hrun Hver. unfold install_one. rewrite Hnot.
  destruct (pending_then_installing (reg st) (plugin_id spec) (name spec)
              (source spec) (package spec)) as (d2 & -> & _ & _).
  unfold try_install. rewrite Hrun, Hver. simpl. f_equal. f_equal.
  unfold register_plugin. by rewrite insert_insert_eq.
Qed.

(** A turn of the loop whose install succeeds: the installer reported
    success and the index answered with [version].  The turn records
    (True, "Installed <version>"), or "Installed successfully" when the
    index has no version, and replaces the record of the plugin by one
    that is installed, has that version, no error and no entry points. *)
Theorem install_one_success (inst : PackageInstaller) (st : @pass World)
    (spec : PluginSpec) (message : string) (m' : @machine World)
    (version : option string) :
  is_installed (reg st) (plugin_id spec) = Ok false →
  install_from_spec inst spec (mach st) = (Ok (true, message), m') →
  get_installed_version (or_str (package spec) (name spec)) m' = Ok version →
  install_one inst st spec
  = Ok {| results := <[plugin_id spec
                       := (true, "Installed " +:+ or_str version "successfully")]>
                       (results st);
          installed_any := true;
          reg := register_plugin (reg st) (plugin_id spec) (name spec)
                   (source spec) (package spec) version INSTALLED None None;
          mach := m' |}.
Proof. apply install_one_succeeds. Qed.

(** A plugin whose record says anything but installed is attempted again:
    the turn runs the installer, and whatever error the record held is
    gone afterwards; the record ends installed without an error, or failed
    with the text of the new failure as its error (no error field when
    that text is empty). *)
Theorem failed_plugin_is_retried (inst : PackageInstaller) (st : @pass World)
    (spec : PluginSpec) (d : gmap string jval) (s : string) :
  reg st !! plugin_id spec = Some (JDict d) →
  d !! "status" = Some (JStr s) → s ≠ "installed" →
  ∃ st' d',
    install_one inst st spec = Ok st'
    ∧ mach st' = snd (install_from_spec inst spec (mach st))
    ∧ reg st' !! plugin_id spec = Some (JDict d')
    ∧ ((d' !! "status" = Some (JStr "installed") ∧ d' !! "error" = None)
       ∨ ∃ msg, attempt_fails inst spec (mach st) msg
                ∧ d' !! "status" = Some (JStr "failed")
                ∧ d' !! "error" = (if str_truthy msg then Some (JStr msg) else None)).
Proof.
  intros Hd Hs Hne.
  assert (Hnot : is_installed (reg st) (plugin_id spec) = Ok false).
  { rewrite (is_installed_status _ _ _ _ Hd Hs).
    by rewrite (proj2 (String.eqb_neq s "installed") Hne). }
  destruct (install_from_spec inst spec (mach st)) as [r m'] eqn:Hrun.
  assert (Hsucc : ∀ message version,
            r = Ok (true, message) →
            get_installed_version (or_str (package spec) (name spec)) m'
            = Ok version →
            ∃ st' d',
              install_one inst st spec = Ok st'
              ∧ mach st' = m'
              ∧ reg st' !! plugin_id spec = Some (JDict d')
              ∧ d' !! "status" = Some (JStr "installed")
              ∧ d' !! "error" = None).
  { intros message version -> Hver.
    rewrite (install_one_succeeds inst st spec message m' version Hnot Hrun Hver).
    destruct (register_plugin_lookup (reg st) (plugin_id spec) (name spec)
                (source spec) (package spec) version INSTALLED None None)
      as (d' & Hd' & Hst' & Herr').
    eexists _, d'. simpl. eauto. }
  destruct (install_one_not_installed inst st spec Hnot)
    as (st' & d' & entry & Hone & Hreg & _ & Hmach & Hcase).
  rewrite Hrun in Hmach. simpl in Hmach.
  destruct Hcase as [(msg & _ & Hnever & Hst' & _)
                    | (msg & _ & Hfails & Hst' & Herr' & _)].
  - assert (Hok : ∃ message version,
              r = Ok (true, message)
              ∧ get_installed_version (or_str (package spec) (name spec)) m'
                = Ok version).
    { unfold attempt_fails in Hnever. rewrite Hrun in Hnever.
      destruct r as [[[] message]|e].
      - destruct (get_installed_version _ m') as [version|e] eqn:Hver; [eauto|].
        by destruct (Hnever (str_exn e)).
      - by destruct (Hnever message).
      - by destruct (Hnever (str_exn e)). }
    destruct Hok as (message & version & Hr & Hver).
    destruct (Hsucc message version Hr Hver) as (st1 & d1 & Hone1 & Hm1 & Hd1 & Hs1 & He1).
    exists st1, d1. repeat (split; [done|]). by left.
  - exists st', d'. split; [done|]. split; [done|].
    split; [by rewrite Hreg, lookup_insert_eq|]. right. eauto.
Qed.

End ManagerMore.

Lemma install_plugins_result_keys_witness :
  dom (fst (returned flaky))
  = list_to_set (plugin_id <$> get_enabled_plugins (Manager.config flaky)).
Proof.
  apply (install_plugins_result_keys flaky (snd (returned flaky))).
  vm_compute. reflexivity.
Defined.

Lemma install_plugins_invocations_witness :
  ∃ new,
    Installer.invocations (Manager.host (snd (returned flaky)))
    = Installer.invocations (Manager.host flaky) ++ new
    ∧ (List.length new ≤ List.length (get_enabled_plugins (Manager.config flaky)))%nat
    ∧ Forall pip_install new.
Proof.
  apply (install_plugins_invocations flaky (snd (returned flaky))
           (fst (returned flaky))).
  vm_compute. reflexivity.
Defined.

Lemma attribute_entry_point_idempotent_witness :
  ∃ d', Manager.attribute_entry_point foo_table "vllm.general_plugins"
          {| ep_name := "foo_register"; ep_value := "foo:register";
             ep_group := "vllm.general_plugins"; ep_dist := Some "foo" |}
        !! "foo" = Some (JDict d')
        ∧ (d' !! "entry_points" = Some (JList [])
           ∨ (d' !! "entry_points"
              = Some (JList ([] ++ [JStr ("vllm.general_plugins" +:+ ":" +:+ "foo_register")]))
              ∧ JStr ("vllm.general_plugins" +:+ ":" +:+ "foo_register") ∉ [])).
Proof.
  refine (proj2 (attribute_entry_point_idempotent foo_table "vllm.general_plugins"
                   {| ep_name := "foo_register"; ep_value := "foo:register";
                      ep_group := "vllm.general_plugins"; ep_dist := Some "foo" |})
            "foo" _ [] _ _).
  - reflexivity.
  - vm_compute. reflexivity.
Defined.

Lemma install_plugins_frame_witness :
  fst (returned bystander) !! "foo" = None
  ∧ entry_points_appended (Manager.registry bystander !! "foo")
      (Manager.registry (snd (returned bystander)) !! "foo")
  ∧ (Manager.registry bystander !! "foo" = None →
     Manager.registry (snd (returned bystander)) !! "foo" = None).
Proof.
  apply (install_plugins_frame bystander (snd (returned bystander))
           (fst (returned bystander))).
  - vm_compute. reflexivity.
  - change (get_enabled_plugins (Manager.config bystander)) with [git_example].
    intros Hin. apply list_elem_of_fmap in Hin as (spec & Heq & Hin).
    apply elem_of_cons in Hin as [-> | Hin]; [done|].
    by apply elem_of_nil in Hin.
Defined.

(** On [bystander] the record of [foo], which is not in the configuration,
    gets the new entry point appended after the one it had. *)
Example install_plugins_appends_entry_point :
  ∃ d, Manager.registry (snd (returned bystander)) !! "foo" = Some (JDict d)
       ∧ d !! "entry_points"
         = Some (JList [JStr "vllm.general_plugins:old";
                        JStr "vllm.general_plugins:foo_register"])
       ∧ d !! "status" = Some (JStr "installed").
Proof.
  eexists. split; [vm_compute; reflexivity|]. split; reflexivity.
Qed.

Lemma install_one_success_witness :
  Manager.install_one (Manager.installer recovering) (initial_pass recovering)
    pypi_example
  = Ok {| Manager.results := <["foo" := (true, "Installed 1.2.0")]> ∅;
          Manager.installed_any := true;
          Manager.reg :=
            Registry.register_plugin (Manager.registry recovering) "foo" "foo"
              "pypi" (Some "foo") (Some "1.2.0") Registry.INSTALLED None None;
          Manager.mach :=
            snd (Installer.install_from_spec (Installer.init None) pypi_example
                   (Manager.host recovering)) |}.
Proof.
  refine (install_one_success (Manager.installer recovering)
            (initial_pass recovering) pypi_example "" _ (Some "1.2.0") _ _ _);
    reflexivity.
Defined.

Lemma failed_plugin_is_retried_witness :
  ∃ st' d',
    Manager.install_one (Manager.installer recovering) (initial_pass recovering)
      pypi_example
    = Ok st'
    ∧ Manager.mach st'
      = snd (Installer.install_from_spec (Manager.installer recovering)
               pypi_example (Manager.mach (initial_pass recovering)))
    ∧ Manager.reg st' !! plugin_id pypi_example = Some (JDict d')
    ∧ ((d' !! "status" = Some (JStr "installed") ∧ d' !! "error" = None)
       ∨ ∃ msg, attempt_fails (Manager.installer recovering) pypi_example
                  (Manager.mach (initial_pass recovering)) msg
                ∧ d' !! "status" = Some (JStr "failed")
                ∧ d' !! "error" = (if str_truthy msg then Some (JStr msg) else None)).
Proof.
  eapply (failed_plugin_is_retried (Manager.installer recovering)
            (initial_pass recovering) pypi_example _ "failed").
  - reflexivity.
  - vm_compute. reflexivity.
  - done.
Defined.

(* ===================================================================== *)
(** * Properties of __init__.py                                           *)
(* ===================================================================== *)

Section EntryFacts.
Import Entry.
Variable Outside : Type.
Variable process_of : Outside → Process.
Variable read_config : Outside → string → read_outcome.
Variable reconcile : PluginConfig → string → Outside → Outside.

Local Abbreviation register :=
  (Entry.register Outside process_of read_config reconcile).

(** [register] runs once per interpreter: it always leaves the flag set,
    a call on an interpreter whose flag is set changes nothing, and so a
    second call changes nothing, whatever the first one did. *)
Theorem register_once (i : interpreter Outside) :
  _registered Outside (register i) = true
  ∧ (_registered Outside i = true → register i = i)
  ∧ register (register i) = register i.
Proof.
  unfold Entry.register.
  destruct i as [[] pname o]; simpl; [done|].
  destruct (is_main_process Outside _); simpl; done.
Qed.

(** [register] leaves the outside alone when the flag is already set, in
    a process that is not the main one, when no configuration file is
    found, and when loading the configuration raises: one bad entry and
    nothing is reconciled.  Otherwise the outside is reconciled once, with
    the loaded configuration and the registry directory. *)
Theorem register_reconciles (i : interpreter Outside) :
  let o := outside Outside i in
  (_registered Outside i = true
   ∨ current_process_name Outside i ≠ "MainProcess"
   ∨ get_config_path (process_of o) = None
   ∨ (∃ config_path e,
        get_config_path (process_of o) = Some config_path
        ∧ from_file config_path (read_config o config_path) = Raise e) →
   outside Outside (register i) = o)
  ∧ (∀ config_path config,
       _registered Outside i = false →
       current_process_name Outside i = "MainProcess" →
       get_config_path (process_of o) = Some config_path →
       from_file config_path (read_config o config_path) = Ok config →
       outside Outside (register i)
       = reconcile config (Registry.get_registry_dir (process_of o)) o).
Proof.
  simpl. unfold Entry.register, is_main_process, startup.
  destruct i as [registered pname o]; simpl. split.
  - intros [-> | [Hname | [Hpath | (config_path & e & Hpath & Hload)]]];
      [done | | |]; destruct registered; try done.
    + by rewrite (proj2 (String.eqb_neq pname "MainProcess") Hname).
    + destruct (String.eqb pname "MainProcess"); simpl; [|done].
      by rewrite Hpath.
    + destruct (String.eqb pname "MainProcess"); simpl; [|done].
      by rewrite Hpath, Hload.
  - intros config_path config -> -> Hpath Hload. simpl.
    by rewrite Hpath, Hload.
Qed.

End EntryFacts.

Lemma register_once_witness :
  counting_register
    {| Entry._registered := true; Entry.current_process_name := "MainProcess";
       Entry.outside := 0 |}
  = {| Entry._registered := true; Entry.current_process_name := "MainProcess";
       Entry.outside := 0 |}.
Proof.
  refine (proj1 (proj2 (register_once nat _ _ _ _)) _). reflexivity.
Defined.

Lemma register_reconciles_witness :
  Entry.outside nat
    (counting_register
       {| Entry._registered := false; Entry.current_process_name := "Process-1";
          Entry.outside := 0 |})
  = 0.
Proof.
  refine (proj1 (register_reconciles nat _ _ _ _) _). right; left. done.
Defined.

(** In the main process the first call reconciles and the second does
    not. *)
Example register_twice :
  Entry.outside nat
    (counting_register
       (counting_register
          {| Entry._registered := false; Entry.current_process_name := "MainProcess";
             Entry.outside := 0 |}))
  = 1.
Proof. reflexivity. Qed.
